(** * The per-client session engine of the broker (package [clients])

    A shallow embedding of [internal/clients/clients.go]: the client
    registry, the session record, the keepalive deadline, packet-id
    allocation, the fixed-header decoder, the packet read and write paths,
    the in-flight resend pass and the stop protocol, followed by the
    properties established about them. *)

From Stdlib Require Import ZArith Lia List Bool.
From Stdlib Require Strings.Byte.
From stdpp Require Import gmap strings list fin_maps.

Local Open Scope Z_scope.

(** ** Machine integers

    Go's fixed-width integers are modelled as [Z] with the wrap-around of
    each operation written out. *)

Module Int.

Definition wrap16 (x : Z) : Z := x mod 2 ^ 16.
Definition wrap32 (x : Z) : Z := x mod 2 ^ 32.
Definition wrap64 (x : Z) : Z := x mod 2 ^ 64.

(** Two's-complement reading of a 64-bit pattern ([int64], and [int] on the
    64-bit targets the broker runs on). *)
Definition toInt64 (x : Z) : Z :=
  let y := wrap64 x in if y <? 2 ^ 63 then y else y - 2 ^ 64.

Definition inInt64 (x : Z) : Prop := - 2 ^ 63 <= x < 2 ^ 63.

(** [a - b] on [int64]. *)
Definition sub64 (a b : Z) : Z := toInt64 (a - b).

(** [a * b] on [int64]. *)
Definition mul64 (a b : Z) : Z := toInt64 (a * b).

(** [uint64(v) << s]. *)
Definition shl64 (v s : Z) : Z := wrap64 (Z.shiftl v s).

End Int.

(** ** Bytes *)

Abbreviation byte := Corelib.Init.Byte.byte.

Definition b2z (b : byte) : Z := Z.of_N (Strings.Byte.to_N b).

(** ** Errors *)

Inductive error : Type :=
| ErrConnectionClosed                 (* clients.ErrConnectionClosed *)
| ErrOversizedLengthIndicator         (* packets.ErrOversizedLengthIndicator *)
| ErrNoValidPacket (ty : Z)           (* fmt.Errorf("No valid packet available; %v", ty) *)
| ErrChannel                          (* an error of the reader or of the writer *)
| ErrCodec (code : Z).                (* an error of a packet decoder or encoder *)

(** ** [encoding/binary.Uvarint]

    The standard library's decoder, which [ReadFixedHeader] applies to the
    length bytes it has collected: the loop over [buf] with the accumulator
    [x] and the shift [s]; it returns the value and the number of bytes
    read (0 when the buffer ends inside a value, negative on overflow). *)

Module binary.

Definition MaxVarintLen64 : Z := 10.

Fixpoint uvarintFrom (buf : list byte) (i x s : Z) : Z * Z :=
  match buf with
  | [] => (0, 0)
  | b :: rest =>
      if i =? MaxVarintLen64 then (0, - (i + 1))
      else if b2z b <? 128 then
        if (i =? MaxVarintLen64 - 1) && (1 <? b2z b) then (0, - (i + 1))
        else (Z.lor x (Int.shl64 (b2z b) s), i + 1)
      else uvarintFrom rest (i + 1) (Z.lor x (Int.shl64 (Z.land (b2z b) 127) s)) (s + 7)
  end.

Definition Uvarint (buf : list byte) : Z * Z := uvarintFrom buf 0 0 0.

End binary.

(** The value a little-endian base-128 field denotes: seven payload bits
    per byte, least significant group first. *)
Fixpoint varintValue (bs : list byte) : Z :=
  match bs with
  | [] => 0
  | b :: rest => b2z b mod 128 + 128 * varintValue rest
  end.

(** A length field: continuation bytes (bit 7 set), then one byte that
    ends it (bit 7 clear). *)
Definition lengthField (conts : list byte) (last : byte) : Prop :=
  Forall (fun b => 128 <= b2z b) conts /\ b2z last < 128.

(** ** The packet codec (package [packets]) *)

Module packets.

(** Modelled from the spec: the control packet types of the [packets]
    package, which [clients.go] imports. The fourteen kinds the
    spec lists (CONNECT ... DISCONNECT) carry their MQTT 3.1.1 numbers, as
    in the spec's scenarios (first byte 0x10 is a CONNECT, 0x30 a PUBLISH);
    0 is reserved. *)
Definition Reserved : Z := 0.
Definition Connect : Z := 1.
Definition Connack : Z := 2.
Definition Publish : Z := 3.
Definition Puback : Z := 4.
Definition Pubrec : Z := 5.
Definition Pubrel : Z := 6.
Definition Pubcomp : Z := 7.
Definition Subscribe : Z := 8.
Definition Suback : Z := 9.
Definition Unsubscribe : Z := 10.
Definition Unsuback : Z := 11.
Definition Pingreq : Z := 12.
Definition Pingresp : Z := 13.
Definition Disconnect : Z := 14.

(** The fixed header: [Type] is a byte, [Remaining] an [int]. *)
Record FixedHeader : Type := {
  Type_ : Z;
  Dup : bool;
  Qos : Z;
  Retain : bool;
  Remaining : Z
}.

(** A packet: its fixed header, its packet id (a [uint16]) and [Body],
    which stands for the remaining fields, the ones only the decoders and
    encoders of the codec read and write. *)
Record Packet : Type := {
  PFixedHeader : FixedHeader;
  PacketID : Z;
  Body : list byte
}.

Definition zeroFixedHeader : FixedHeader :=
  {| Type_ := 0; Dup := false; Qos := 0; Retain := false; Remaining := 0 |}.

Definition zeroPacket : Packet :=
  {| PFixedHeader := zeroFixedHeader; PacketID := 0; Body := [] |}.

Definition setRemaining (n : Z) (fh : FixedHeader) : FixedHeader :=
  {| Type_ := Type_ fh; Dup := Dup fh; Qos := Qos fh; Retain := Retain fh;
     Remaining := n |}.

Definition setDup (d : bool) (fh : FixedHeader) : FixedHeader :=
  {| Type_ := Type_ fh; Dup := d; Qos := Qos fh; Retain := Retain fh;
     Remaining := Remaining fh |}.

Definition setFixedHeader (fh : FixedHeader) (pk : Packet) : Packet :=
  {| PFixedHeader := fh; PacketID := PacketID pk; Body := Body pk |}.

(** The arms of the two [switch pk.FixedHeader.Type] statements. *)
Inductive Kind : Type :=
| KConnect | KConnack | KPublish | KPuback | KPubrec | KPubrel | KPubcomp
| KSubscribe | KSuback | KUnsubscribe | KUnsuback
| KPingreq | KPingresp | KDisconnect.

(** Which [case] a type byte selects; [None] is the [default] arm. *)
Definition kindOf (ty : Z) : option Kind :=
  if ty =? Connect then Some KConnect
  else if ty =? Connack then Some KConnack
  else if ty =? Publish then Some KPublish
  else if ty =? Puback then Some KPuback
  else if ty =? Pubrec then Some KPubrec
  else if ty =? Pubrel then Some KPubrel
  else if ty =? Pubcomp then Some KPubcomp
  else if ty =? Subscribe then Some KSubscribe
  else if ty =? Suback then Some KSuback
  else if ty =? Unsubscribe then Some KUnsubscribe
  else if ty =? Unsuback then Some KUnsuback
  else if ty =? Pingreq then Some KPingreq
  else if ty =? Pingresp then Some KPingresp
  else if ty =? Disconnect then Some KDisconnect
  else None.

(** The codec the session consumes. Its functions live in the [packets]
    package and are taken as an interface: [Decode] is
    [fh.Decode(headerByte)], [DecodeBody k] is [pk.<Kind>Decode(px)] and
    [EncodeBody k] is [pk.<Kind>Encode(buf)], each returning what it leaves
    in the receiver (or in the buffer) and its error. *)
Class Codec : Type := {
  Decode : FixedHeader -> byte -> FixedHeader * option error;
  DecodeBody : Kind -> Packet -> list byte -> Packet * option error;
  EncodeBody : Kind -> Packet -> list byte * option error
}.

End packets.

Import packets.

(** ** The byte channel (package [circ]) *)

Module circ.

(** Modelled from the spec: the reader half of the byte channel
    ([circ.Reader], which [clients.go] imports). [read(n)] hands out a view
    of the first [n] unread bytes and consumes nothing; [commit_tail(n)]
    advances the tail by [n]; [cap_delta] is the number of unread buffered
    bytes.
    [unread] holds the bytes the connection delivers before it ends: a
    read that asks for more than that does not block forever but ends
    with the channel's error, as it does once the reader is stopped. *)
Record Reader : Type := {
  rID : string;
  unread : list byte
}.

Definition Read (n : Z) (r : Reader) : list byte * option error :=
  if n <=? Z.of_nat (length (unread r))
  then (take (Z.to_nat n) (unread r), None)
  else ([], Some ErrChannel).

Definition CommitTail (n : Z) (r : Reader) : Reader :=
  {| rID := rID r; unread := drop (Z.to_nat n) (unread r) |}.

Definition CapDelta (r : Reader) : Z := Z.of_nat (length (unread r)).

(** Modelled from the spec: the writer half. [write(bytes)] pushes all the
    bytes into the internal buffer or returns an error (here: when the
    writer has been stopped); the exclusive lock [Mu] is followed in the
    session's trace. *)
Record Writer : Type := {
  wID : string;
  pushed : list byte;
  stopped : bool
}.

Definition Write (bs : list byte) (w : Writer) : Writer * (Z * option error) :=
  if stopped w then (w, (0, Some ErrChannel))
  else ({| wID := wID w; pushed := pushed w ++ bs; stopped := false |},
        (Z.of_nat (length bs), None)).

End circ.

(** ** The connection

    Of [net.Conn] the session uses [SetDeadline] alone. A deadline is an
    instant in nanoseconds; [None] is the zero [time.Time], which disables
    the deadline. *)

Record Conn : Type := { deadline : option Z }.

Definition SetDeadline (expiry : option Z) (c : Conn) : Conn :=
  {| deadline := expiry |}.

(** [time.Second], a [time.Duration] (an [int64] of nanoseconds). *)
Definition Second : Z := 1000000000.

(** ** The session record *)

Definition defaultKeepalive : Z := 10.
Definition resendBackoff : list Z := [0; 1; 2; 10; 60; 120; 600; 3600; 21600].
Definition maxResends : Z := 6.

(** The last will and testament of a client connection. *)
Record LWT : Type := {
  Topic : string;
  Message : list byte;
  WillQos : Z;
  WillRetain : bool
}.

(** A packet which is currently in flight: [Sent] is an [int64] of unix
    seconds, [resends] an [int]. *)
Record InFlightMessage : Type := {
  Packet : packets.Packet;
  Sent : Z;
  resends : Z
}.

(** [clientState]: the three wait groups are followed by their counters,
    [done] is the [int64] read and written atomically, [endOnce] tells
    whether the once-gate has fired. *)
Record clientState : Type := {
  started : Z;
  endedW : Z;
  endedR : Z;
  done : Z;
  endOnce : bool
}.

(** What a session does to its collaborators, in the order it does it. *)
Inductive Event : Type :=
| ConnSetDeadline (expiry : option Z)
| ReaderCommitTail (n : Z)
| WriterLock
| WriterUnlock
| WriterWrite (bs : list byte)
| CodecEncode (ty : Z)
| CodecDecode (ty : Z)
| InFlightSet (key : Z) (m : InFlightMessage)
| InFlightDelete (key : Z).

(** [Client]. [conn] is [None] for a nil connection. [InFlight] and
    [Subscriptions] are the maps themselves ([InFlight.internal], keyed by
    [uint16] packet ids, and the [map[string]byte]); the locks around them
    order concurrent callers and hold no data. The auth controller [AC] is
    stored and never read here, and is left out. [trace] is not a field of
    the source: it records the session's calls on its collaborators. *)
Record Client : Type := {
  conn : option Conn;
  r : circ.Reader;
  w : circ.Writer;
  ID : string;
  Subscriptions : gmap string Z;
  Listener : string;
  InFlight : gmap Z InFlightMessage;
  Username : list byte;
  keepalive : Z;
  cleanSession : bool;
  packetID : Z;
  will : LWT;
  state : clientState;
  trace : list Event
}.

Definition zeroLWT : LWT :=
  {| Topic := EmptyString; Message := []; WillQos := 0; WillRetain := false |}.

Definition setConn (c : option Conn) (cl : Client) : Client :=
  {| conn := c; r := r cl; w := w cl; ID := ID cl;
     Subscriptions := Subscriptions cl; Listener := Listener cl;
     InFlight := InFlight cl; Username := Username cl;
     keepalive := keepalive cl; cleanSession := cleanSession cl;
     packetID := packetID cl; will := will cl; state := state cl;
     trace := trace cl |}.

Definition setReader (rd : circ.Reader) (cl : Client) : Client :=
  {| conn := conn cl; r := rd; w := w cl; ID := ID cl;
     Subscriptions := Subscriptions cl; Listener := Listener cl;
     InFlight := InFlight cl; Username := Username cl;
     keepalive := keepalive cl; cleanSession := cleanSession cl;
     packetID := packetID cl; will := will cl; state := state cl;
     trace := trace cl |}.

Definition setWriter (wr : circ.Writer) (cl : Client) : Client :=
  {| conn := conn cl; r := r cl; w := wr; ID := ID cl;
     Subscriptions := Subscriptions cl; Listener := Listener cl;
     InFlight := InFlight cl; Username := Username cl;
     keepalive := keepalive cl; cleanSession := cleanSession cl;
     packetID := packetID cl; will := will cl; state := state cl;
     trace := trace cl |}.

Definition setSubscriptions (s : gmap string Z) (cl : Client) : Client :=
  {| conn := conn cl; r := r cl; w := w cl; ID := ID cl;
     Subscriptions := s; Listener := Listener cl;
     InFlight := InFlight cl; Username := Username cl;
     keepalive := keepalive cl; cleanSession := cleanSession cl;
     packetID := packetID cl; will := will cl; state := state cl;
     trace := trace cl |}.

Definition setInFlight (m : gmap Z InFlightMessage) (cl : Client) : Client :=
  {| conn := conn cl; r := r cl; w := w cl; ID := ID cl;
     Subscriptions := Subscriptions cl; Listener := Listener cl;
     InFlight := m; Username := Username cl;
     keepalive := keepalive cl; cleanSession := cleanSession cl;
     packetID := packetID cl; will := will cl; state := state cl;
     trace := trace cl |}.

Definition setPacketID (i : Z) (cl : Client) : Client :=
  {| conn := conn cl; r := r cl; w := w cl; ID := ID cl;
     Subscriptions := Subscriptions cl; Listener := Listener cl;
     InFlight := InFlight cl; Username := Username cl;
     keepalive := keepalive cl; cleanSession := cleanSession cl;
     packetID := i; will := will cl; state := state cl;
     trace := trace cl |}.

Definition setState (s : clientState) (cl : Client) : Client :=
  {| conn := conn cl; r := r cl; w := w cl; ID := ID cl;
     Subscriptions := Subscriptions cl; Listener := Listener cl;
     InFlight := InFlight cl; Username := Username cl;
     keepalive := keepalive cl; cleanSession := cleanSession cl;
     packetID := packetID cl; will := will cl; state := s;
     trace := trace cl |}.

Definition emit (ev : Event) (cl : Client) : Client :=
  {| conn := conn cl; r := r cl; w := w cl; ID := ID cl;
     Subscriptions := Subscriptions cl; Listener := Listener cl;
     InFlight := InFlight cl; Username := Username cl;
     keepalive := keepalive cl; cleanSession := cleanSession cl;
     packetID := packetID cl; will := will cl; state := state cl;
     trace := trace cl ++ [ev] |}.

(** ** The registry: [Clients] *)

(** The clients known by the broker, keyed on client id. The source maps
    ids to [*Client]; an entry here is the session a pointer leads to at
    the moment the registry is read. *)
Record Clients : Type := { internal : gmap string Client }.

Definition New : Clients := {| internal := ∅ |}.

Definition Add (val : Client) (cl : Clients) : Clients :=
  {| internal := <[ID val := val]> (internal cl) |}.

(** [Get]: the pointer ([None] for nil) and whether the id is known. *)
Definition Get (id : string) (cl : Clients) : option Client * bool :=
  match internal cl !! id with
  | Some val => (Some val, true)
  | None => (None, false)
  end.

Definition Len (cl : Clients) : Z := Z.of_nat (size (internal cl)).

Definition Delete (id : string) (cl : Clients) : Clients :=
  {| internal := delete id (internal cl) |}.

(** The test of [GetByListener]: the session belongs to the listener and
    its done flag is 0. *)
Definition live (id : string) (v : Client) : bool :=
  String.eqb (Listener v) id && (done (state v) =? 0).

(** [GetByListener]: the [range] over the map visits every entry once, in
    an order Go leaves unspecified ([map_to_list] fixes one), and appends
    the sessions that pass the test. *)
Definition GetByListener (id : string) (cl : Clients) : list Client :=
  fold_left
    (fun clients kv =>
       let v := snd kv in
       if String.eqb (Listener v) id && (done (state v) =? 0)
       then clients ++ [v] else clients)
    (map_to_list (internal cl)) [].

(** ** The in-flight table: the methods of [InFlight] *)

Definition InFlight_Set (key : Z) (m : InFlightMessage) (cl : Client) : Client :=
  emit (InFlightSet key m) (setInFlight (<[key := m]> (InFlight cl)) cl).

Definition InFlight_Get (key : Z) (cl : Client) : option InFlightMessage * bool :=
  match InFlight cl !! key with
  | Some val => (Some val, true)
  | None => (None, false)
  end.

Definition InFlight_Len (cl : Client) : Z := Z.of_nat (size (InFlight cl)).

Definition InFlight_GetAll (cl : Client) : gmap Z InFlightMessage := InFlight cl.

Definition InFlight_Delete (key : Z) (cl : Client) : Client :=
  emit (InFlightDelete key) (setInFlight (delete key (InFlight cl)) cl).

(** ** The session's methods *)

(** [refreshDeadline]; [now] is what [time.Now()] returns. The sum
    [keepalive+(keepalive/2)] is a [uint16]; the product with
    [time.Second] is a [time.Duration]. *)
Definition refreshDeadline (now : Z) (keepalive : Z) (cl : Client) : Client :=
  match conn cl with
  | Some c =>
      let expiry :=
        if 0 <? keepalive
        then Some (now + Int.mul64 (Int.wrap16 (keepalive + keepalive / 2)) Second)
        else None in
      emit (ConnSetDeadline expiry) (setConn (Some (SetDeadline expiry c)) cl)
  | None => cl
  end.

(** [NewClient]. *)
Definition NewClient (now : Z) (c : option Conn) (rd : circ.Reader)
    (wr : circ.Writer) : Client :=
  let cl :=
    {| conn := c; r := rd; w := wr;
       ID := EmptyString; Subscriptions := ∅; Listener := EmptyString;
       InFlight := ∅; Username := [];
       keepalive := defaultKeepalive;
       cleanSession := false; packetID := 0; will := zeroLWT;
       state := {| started := 0; endedW := 0; endedR := 0; done := 0;
                   endOnce := false |};
       trace := [] |} in
  refreshDeadline now (keepalive cl) cl.

(** [NextPacketID]: the counter is a [uint32]; [atomic.AddUint32] returns
    the new value. *)
Definition NextPacketID (cl : Client) : Z * Client :=
  let i := packetID cl in
  if (i =? 65535) || (i =? 0) then (1, setPacketID 1 cl)
  else
    let i' := Int.wrap32 (packetID cl + 1) in
    (i', setPacketID i' cl).

(** The values [n] sequential calls return, oldest first, and the session
    they leave. *)
Fixpoint NextPacketIDs (n : nat) (cl : Client) : list Z * Client :=
  match n with
  | O => ([], cl)
  | S n' =>
      let '(i, cl1) := NextPacketID cl in
      let '(rest, cl2) := NextPacketIDs n' cl1 in
      (i :: rest, cl2)
  end.

(** The position of the counter in the cycle 1, 2, ..., 65535: both 0 (the
    initial state) and 65535 stand before 1. *)
Definition cyclePos (p : Z) : Z := p mod 65535.

Definition NoteSubscription (filter : string) (qos : Z) (cl : Client) : Client :=
  setSubscriptions (<[filter := qos]> (Subscriptions cl)) cl.

Definition ForgetSubscription (filter : string) (cl : Client) : Client :=
  setSubscriptions (delete filter (Subscriptions cl)) cl.

(** What a method that may index out of range ends with: its results and
    the session it leaves, or a run-time panic. *)
Inductive Outcome (A : Type) : Type :=
| Returns (a : A) (cl : Client)
| Panics.
Arguments Returns {A} a cl.
Arguments Panics {A}.

(** How the length loop of [ReadFixedHeader] ends. *)
Inductive LoopEnd : Type :=
| LoopExit (buf : list byte) (n : Z)    (* by [break], or once [n < 6] fails *)
| LoopReturn (err : error)              (* by a [return] inside the loop *)
| LoopPanic.                            (* an index out of range *)

Section Session.

Context {codec : Codec}.

(** The loop [for ; n < 6; n++] of [ReadFixedHeader]. [left] is [6 - n],
    the number of times the condition [n < 6] still holds: the loop starts
    at [n = 2] with four iterations ahead. *)
Fixpoint lengthLoop (left : nat) (rd : circ.Reader) (buf : list byte)
    (i n : Z) : LoopEnd :=
  match left with
  | O => LoopExit buf n
  | S left' =>
      let '(p, err) := circ.Read n rd in
      match err with
      | Some e => LoopReturn e
      | None =>
          match p !! Z.to_nat i with
          | None => LoopPanic
          | Some b =>
              let buf := buf ++ [b] in
              if b2z b <? 128 then LoopExit buf n
              else
                let i := i + 1 in
                if i =? 4 then LoopReturn ErrOversizedLengthIndicator
                else lengthLoop left' rd buf i (n + 1)
          end
      end
  end.

(** [ReadFixedHeader]: the header [fh] points to on return, and the
    error. *)
Definition ReadFixedHeader (fh : FixedHeader) (cl : Client)
  : Outcome (FixedHeader * option error) :=
  let '(p, err) := circ.Read 1 (r cl) in
  match err with
  | Some e => Returns (fh, Some e) cl
  | None =>
      match p !! 0%nat with
      | None => Panics
      | Some b0 =>
          let '(fh, err) := Decode fh b0 in
          match err with
          | Some e => Returns (fh, Some e) cl
          | None =>
              match lengthLoop (Z.to_nat (6 - 2)) (r cl) [] 1 2 with
              | LoopPanic => Panics
              | LoopReturn e => Returns (fh, Some e) cl
              | LoopExit buf n =>
                  let '(rem, _) := binary.Uvarint buf in
                  let fh := setRemaining (Int.toInt64 rem) fh in
                  Returns (fh, None)
                    (emit (ReaderCommitTail n)
                       (setReader (circ.CommitTail n (r cl)) cl))
              end
          end
      end
  end.

(** [ReadPacket]: the packet and the error it returns, and the session it
    leaves. *)
Definition ReadPacket (fh : FixedHeader) (cl : Client)
  : (packets.Packet * option error) * Client :=
  let pk := setFixedHeader fh zeroPacket in
  if Remaining (PFixedHeader pk) =? 0 then ((pk, None), cl)
  else
    let '(p, err) := circ.Read (Remaining (PFixedHeader pk)) (r cl) in
    match err with
    | Some e => ((pk, Some e), cl)
    | None =>
        let px := [] ++ p in
        let ty := Type_ (PFixedHeader pk) in
        let '(pk, err, cl) :=
          match kindOf ty with
          | Some KPingreq => (pk, None, cl)
          | Some KPingresp => (pk, None, cl)
          | Some KDisconnect => (pk, None, cl)
          | Some k =>
              let '(pk, err) := DecodeBody k pk px in
              (pk, err, emit (CodecDecode ty) cl)
          | None => (pk, Some (ErrNoValidPacket ty), cl)
          end in
        ((pk, err),
         emit (ReaderCommitTail (Remaining (PFixedHeader pk)))
           (setReader (circ.CommitTail (Remaining (PFixedHeader pk)) (r cl)) cl))
    end.

(** [WritePacket]: the byte count and the error it returns, and the
    session it leaves. The deferred unlock runs at every return past the
    lock. *)
Definition WritePacket (now : Z) (pk : packets.Packet) (cl : Client)
  : (Z * option error) * Client :=
  if done (state cl) =? 1 then ((0, Some ErrConnectionClosed), cl)
  else
    let cl := emit WriterLock cl in
    let ty := Type_ (PFixedHeader pk) in
    let '(buf, err, cl) :=
      match kindOf ty with
      | Some k =>
          let '(buf, err) := EncodeBody k pk in
          (buf, err, emit (CodecEncode ty) cl)
      | None => ([], Some (ErrNoValidPacket ty), cl)
      end in
    match err with
    | Some e => ((0, Some e), emit WriterUnlock cl)
    | None =>
        let '(wr, (n, err)) := circ.Write buf (w cl) in
        let cl := emit (WriterWrite buf) (setWriter wr cl) in
        match err with
        | Some e => ((n, Some e), emit WriterUnlock cl)
        | None =>
            let cl := refreshDeadline now (keepalive cl) cl in
            ((n, None), emit WriterUnlock cl)
        end
    end.

End Session.

(** ** The resend pass *)

(** [s[i]] on a Go slice: [None] stands for the index-out-of-range panic. *)
Definition index (s : list Z) (i : Z) : option Z :=
  if i <? 0 then None else s !! Z.to_nat i.

(** The record a resend stores: DUP set on a PUBLISH, one more resend
    (below [maxResends], so the [int] does not wrap), sent at [nt]. *)
Definition resent (nt : Z) (tk : InFlightMessage) : InFlightMessage :=
  let pk := Packet tk in
  let pk :=
    if Type_ (PFixedHeader pk) =? Publish
    then setFixedHeader (setDup true (PFixedHeader pk)) pk
    else pk in
  {| Packet := pk; Sent := nt; resends := resends tk + 1 |}.

Section Resend.

Context {codec : Codec}.

(** The body of the [range] loop for the entry [tk]: [None] is the error
    of a turn that goes on to the next entry ([continue], or the end of
    the body), [Some err] is [return err]. The condition is evaluated as
    Go does: [!force && (... || ...)], left to right, so the table is
    indexed only when [force] is false. The two [fmt.Println] calls write
    to the standard output alone and are left out. *)
Definition resendBody (force : bool) (now nt : Z) (tk : InFlightMessage)
    (cl : Client) : Outcome (option error) :=
  if maxResends <=? resends tk
  then Returns None (InFlight_Delete (PacketID (Packet tk)) cl)
  else
    let skip : option bool :=
      if negb force then
        match index resendBackoff (resends tk) with
        | None => None
        | Some backoff =>
            Some ((Int.sub64 nt (Sent tk) <? backoff)
                  || (Z.of_nat (length resendBackoff) <? resends tk))
        end
      else Some false in
    match skip with
    | None => Panics
    | Some true => Returns None cl
    | Some false =>
        let tk := resent nt tk in
        let cl := InFlight_Set (PacketID (Packet tk)) tk cl in
        let '((_, err), cl) := WritePacket now (Packet tk) cl in
        Returns err cl
    end.

(** The [range] over [cl.InFlight.GetAll()], which is the live map, not a
    copy: [order] lists the keys in the order the iteration takes them (Go
    leaves it unspecified); an entry is read when the iteration reaches it,
    and one that was deleted before that is not produced. *)
Fixpoint resendRange (order : list Z) (force : bool) (now nt : Z)
    (cl : Client) : Outcome (option error) :=
  match order with
  | [] => Returns None cl
  | key :: rest =>
      match InFlight_GetAll cl !! key with
      | None => resendRange rest force now nt cl
      | Some tk =>
          match resendBody force now nt tk cl with
          | Panics => Panics
          | Returns (Some e) cl => Returns (Some e) cl
          | Returns None cl => resendRange rest force now nt cl
          end
      end
  end.

(** [ResendInflight]; [now] is the clock in nanoseconds, of which
    [time.Now().Unix()] is the number of whole seconds. *)
Definition ResendInflight (order : list Z) (force : bool) (now : Z)
    (cl : Client) : Outcome (option error) :=
  if InFlight_Len cl =? 0 then Returns None cl
  else
    let nt := now / Second in
    resendRange order force now nt cl.

End Resend.

(** [order] is an order in which a [range] may take the entries of [m]:
    each key of [m] once. *)
Definition rangeOrder (order : list Z) (m : gmap Z InFlightMessage) : Prop :=
  NoDup order ∧ ∀ key, key ∈ order ↔ is_Some (m !! key).

(** The table is keyed on packet id, as [InFlight.Set] documents. *)
Definition keyedOnPacketID (m : gmap Z InFlightMessage) : Prop :=
  ∀ key tk, m !! key = Some tk → PacketID (Packet tk) = key.

(** Every count in the table is a count: not negative. *)
Definition countsFromZero (m : gmap Z InFlightMessage) : Prop :=
  ∀ key tk, m !! key = Some tk -> 0 <= resends tk.

(** What a pass may do to the table: a record that is there afterwards
    was there before, and is either the same or has been resent, its
    count higher and at most [maxResends]. *)
Definition advanced (m m' : gmap Z InFlightMessage) : Prop :=
  ∀ key tk', m' !! key = Some tk' ->
    ∃ tk, m !! key = Some tk
          /\ (tk' = tk \/ resends tk < resends tk' <= maxResends).

(** ** Sessions to run the methods on *)

(** A codec for the examples: the packet type is the high nibble of the
    control byte and the flags are its low bits, as MQTT 3.1.1 lays them
    out; a body is carried as it is. *)
Definition plainCodec : Codec :=
  {| Decode fh b :=
       ({| Type_ := b2z b / 16;
           Dup := Z.testbit (b2z b) 3;
           Qos := (b2z b / 2) mod 4;
           Retain := Z.testbit (b2z b) 0;
           Remaining := Remaining fh |}, None);
     DecodeBody _ pk px :=
       ({| PFixedHeader := PFixedHeader pk; PacketID := PacketID pk;
           Body := px |}, None);
     EncodeBody _ pk := (Body pk, None) |}.

(** A session without a connection whose reader holds [bs]. *)
Definition sessionOn (bs : list byte) : Client :=
  NewClient 0 None
    {| circ.rID := EmptyString; circ.unread := bs |}
    {| circ.wID := EmptyString; circ.pushed := []; circ.stopped := false |}.

(** The state [Stop] leaves. *)
Definition stoppedState : clientState :=
  {| started := 0; endedW := 0; endedR := 0; done := 1; endOnce := true |}.

(** A PUBLISH with packet id [id], in flight since [sent], resent [n]
    times. *)
Definition publishInFlight (id sent n : Z) : InFlightMessage :=
  {| Packet := {| PFixedHeader := {| Type_ := Publish; Dup := false; Qos := 1;
                                     Retain := false; Remaining := 0 |};
                  PacketID := id; Body := [] |};
     Sent := sent; resends := n |}.

(** Two packets in flight: number 1 never resent, number 2 resent
    [maxResends] times. *)
Definition twoInFlight : gmap Z InFlightMessage :=
  <[1 := publishInFlight 1 100 0]> (<[2 := publishInFlight 2 100 6]> ∅).

(** A running session and a stopped one, each with the two packets. *)
Definition runningSession : Client := setInFlight twoInFlight (sessionOn []).

Definition stoppedSession : Client := setState stoppedState runningSession.

(** The running session after a resend pass at second 100, in the order
    1, 2 and not forced: packet 1 is due (its backoff is 0 seconds) and
    has been resent, packet 2 has been dropped. *)
Definition afterPass : Client :=
  {| conn := None;
     r := {| circ.rID := EmptyString; circ.unread := [] |};
     w := {| circ.wID := EmptyString; circ.pushed := []; circ.stopped := false |};
     ID := EmptyString; Subscriptions := ∅; Listener := EmptyString;
     InFlight := delete 2 (<[1 := resent 100 (publishInFlight 1 100 0)]> twoInFlight);
     Username := []; keepalive := 10; cleanSession := false; packetID := 0;
     will := zeroLWT;
     state := {| started := 0; endedW := 0; endedR := 0; done := 0;
                 endOnce := false |};
     trace := [InFlightSet 1 (resent 100 (publishInFlight 1 100 0));
               WriterLock; CodecEncode Publish; WriterWrite []; WriterUnlock;
               InFlightDelete 2] |}.

(** The stopped session after a forced pass in the same order: the write
    for packet 1 fails and the pass ends there. *)
Definition afterAbort : Client :=
  InFlight_Set 1 (resent 100 (publishInFlight 1 100 0)) stoppedSession.

(** Two packets in flight that are both due: numbers 1 and 3, never
    resent. *)
Definition dueInFlight : gmap Z InFlightMessage :=
  <[1 := publishInFlight 1 100 0]> (<[3 := publishInFlight 3 100 0]> ∅).

(** A stopped session that holds them. *)
Definition stoppedDue : Client :=
  setState stoppedState (setInFlight dueInFlight (sessionOn [])).

(** That session after a forced pass in the order 1, 3: the write for
    packet 1 fails and the pass ends there, before packet 3. *)
Definition afterDueAbort : Client :=
  InFlight_Set 1 (resent 100 (publishInFlight 1 100 0)) stoppedDue.

(** ** The stop protocol

    [Stop] runs its body through [cl.state.endOnce.Do]. Tasks call it
    concurrently, so it is followed one atomic action at a time: the load
    of the gate's done word, the gate's mutex, the calls of the body, the
    two waits and the two stores. *)

Module StopProtocol.

(** Where a task stands in its call of [Stop]. *)
Inductive pc : Type :=
| AtCall          (* [Once.Do]: about to load the gate's done word *)
| AtLock          (* [Once.doSlow]: about to take the gate's mutex *)
| AtCheck         (* holds the mutex: about to load the done word again *)
| AtReaderStop    (* body: [cl.r.Stop()] *)
| AtWriterStop    (* body: [cl.w.Stop()] *)
| AtWaitW         (* body: [cl.state.endedW.Wait()] *)
| AtWaitR         (* body: [cl.state.endedR.Wait()] *)
| AtStoreDone     (* body: [atomic.StoreInt64(&cl.state.done, 1)] *)
| AtOnceDone      (* deferred by [doSlow]: store 1 in the gate's done word *)
| AtUnlock        (* deferred by [doSlow]: release the gate's mutex *)
| Returned.

(** What the body has done so far. *)
Inductive BodyEvent : Type :=
| ReaderStopped | WriterStopped | WaitedW | WaitedR | DoneStored.

(** The session state the tasks share, the holder of the gate's mutex,
    the tasks, and two observers: how often the body was entered, and
    what it did. *)
Record World : Type := {
  st : clientState;
  holder : option nat;
  tasks : list pc;
  entered : nat;
  did : list BodyEvent
}.

Definition setDone (d : Z) (s : clientState) : clientState :=
  {| started := started s; endedW := endedW s; endedR := endedR s;
     done := d; endOnce := endOnce s |}.

Definition setEndOnce (b : bool) (s : clientState) : clientState :=
  {| started := started s; endedW := endedW s; endedR := endedR s;
     done := done s; endOnce := b |}.

Definition setEnded (nw nr : Z) (s : clientState) : clientState :=
  {| started := started s; endedW := nw; endedR := nr;
     done := done s; endOnce := endOnce s |}.

(** Task [i] moves to [p]. *)
Definition goto (i : nat) (p : pc) (x : World) : World :=
  {| st := st x; holder := holder x; tasks := <[i := p]> (tasks x);
     entered := entered x; did := did x |}.

Definition withSt (s : clientState) (x : World) : World :=
  {| st := s; holder := holder x; tasks := tasks x;
     entered := entered x; did := did x |}.

Definition withHolder (h : option nat) (x : World) : World :=
  {| st := st x; holder := h; tasks := tasks x;
     entered := entered x; did := did x |}.

Definition enter (x : World) : World :=
  {| st := st x; holder := holder x; tasks := tasks x;
     entered := S (entered x); did := did x |}.

Definition record (ev : BodyEvent) (x : World) : World :=
  {| st := st x; holder := holder x; tasks := tasks x;
     entered := entered x; did := did x ++ [ev] |}.

(** The next atomic action of task [i]; [None] when the task is blocked
    (on the mutex or on a wait group), has returned, or does not exist. *)
Definition taskStep (i : nat) (x : World) : option World :=
  match tasks x !! i with
  | None => None
  | Some AtCall =>
      if endOnce (st x) then Some (goto i Returned x)
      else Some (goto i AtLock x)
  | Some AtLock =>
      match holder x with
      | None => Some (goto i AtCheck (withHolder (Some i) x))
      | Some _ => None
      end
  | Some AtCheck =>
      if endOnce (st x) then Some (goto i AtUnlock x)
      else Some (goto i AtReaderStop (enter x))
  | Some AtReaderStop => Some (goto i AtWriterStop (record ReaderStopped x))
  | Some AtWriterStop => Some (goto i AtWaitW (record WriterStopped x))
  | Some AtWaitW =>
      if endedW (st x) =? 0 then Some (goto i AtWaitR (record WaitedW x))
      else None
  | Some AtWaitR =>
      if endedR (st x) =? 0 then Some (goto i AtStoreDone (record WaitedR x))
      else None
  | Some AtStoreDone =>
      Some (goto i AtOnceDone (record DoneStored (withSt (setDone 1 (st x)) x)))
  | Some AtOnceDone => Some (goto i AtUnlock (withSt (setEndOnce true (st x)) x))
  | Some AtUnlock => Some (goto i Returned (withHolder None x))
  | Some Returned => None
  end.

(** One action of the system: a task of the pool moves, or the rest of
    the program (the drainers calling [Done], [Start] calling [Add])
    changes the counters of the two wait groups. *)
Inductive Action : Type :=
| Task (i : nat)
| Signal (nw nr : Z).

Definition act (a : Action) (x : World) : option World :=
  match a with
  | Task i => taskStep i x
  | Signal nw nr => Some (withSt (setEnded nw nr (st x)) x)
  end.

Definition step (x y : World) : Prop := ∃ a, act a x = Some y.

(** A schedule, run from [x]. *)
Fixpoint run (sched : list Action) (x : World) : option World :=
  match sched with
  | [] => Some x
  | a :: rest =>
      match act a x with
      | Some y => run rest y
      | None => None
      end
  end.

(** [n] tasks are about to call [Stop] on a session that has not been
    stopped; the wait groups hold whatever [Start] and the drainers left. *)
Definition initial (n : nat) (nw nr : Z) : World :=
  {| st := {| started := 0; endedW := nw; endedR := nr; done := 0;
              endOnce := false |};
     holder := None;
     tasks := replicate n AtCall;
     entered := 0;
     did := [] |}.

Definition reachable (n : nat) (nw nr : Z) (x : World) : Prop :=
  rtc step (initial n nw nr) x.

(** The body in full, in the order of the source. *)
Definition bodyInFull : list BodyEvent :=
  [ReaderStopped; WriterStopped; WaitedW; WaitedR; DoneStored].

(** The actions that run with the gate's mutex held. *)
Definition inGate (p : pc) : bool :=
  match p with
  | AtCall | AtLock | Returned => false
  | _ => true
  end.

(** Where the holder of the gate's mutex stands. *)
Definition holderAt (x : World) : option pc :=
  match holder x with
  | Some i => tasks x !! i
  | None => None
  end.

(** What the done flag, the number of entries into the body and the
    record of the body must be, given where the holder of the mutex
    stands and the gate's done word: [None] for a combination that does
    not occur. *)
Definition progress (at_ : option pc) (once : bool)
  : option (Z * nat * list BodyEvent) :=
  match at_, once with
  | None, false | Some AtCheck, false => Some (0, 0%nat, [])
  | Some AtReaderStop, false => Some (0, 1%nat, [])
  | Some AtWriterStop, false => Some (0, 1%nat, [ReaderStopped])
  | Some AtWaitW, false => Some (0, 1%nat, [ReaderStopped; WriterStopped])
  | Some AtWaitR, false =>
      Some (0, 1%nat, [ReaderStopped; WriterStopped; WaitedW])
  | Some AtStoreDone, false =>
      Some (0, 1%nat, [ReaderStopped; WriterStopped; WaitedW; WaitedR])
  | Some AtOnceDone, false => Some (1, 1%nat, bodyInFull)
  | None, true | Some AtCheck, true | Some AtUnlock, true =>
      Some (1, 1%nat, bodyInFull)
  | _, _ => None
  end.

(** The invariant of the protocol. *)
Record Inv (x : World) : Prop := {
  inv_gate : ∀ j p, tasks x !! j = Some p -> inGate p = true -> holder x = Some j;
  inv_holder : ∀ i, holder x = Some i ->
                 ∃ p, tasks x !! i = Some p /\ inGate p = true;
  inv_progress : progress (holderAt x) (endOnce (st x))
                 = Some (done (st x), entered x, did x);
  inv_returned : ∀ j, tasks x !! j = Some Returned -> endOnce (st x) = true
}.

(** The schedule in which task 0 runs [Stop] to its end and the others
    follow, once the wait groups are released. *)
Definition inTurn (n : nat) : list Action :=
  Signal 0 0 :: replicate 10 (Task 0) ++ (Task <$> seq 1 (n - 1)).

(** Two tasks have called [Stop] and both have returned. *)
Definition bothReturned : World :=
  {| st := {| started := 0; endedW := 0; endedR := 0; done := 1;
              endOnce := true |};
     holder := None;
     tasks := [Returned; Returned];
     entered := 1;
     did := bodyInFull |}.

End StopProtocol.

(** ** Identification *)

Module connect.

(** Modelled from the spec: the fields of a CONNECT packet that
    [Identify] reads. In [packets.Packet] they stand beside the fixed
    header and the packet id; the [Packet] record above gathers them in
    [Body]. *)
Record Packet : Type := {
  ClientIdentifier : string;
  Username : list byte;
  CleanSession : bool;
  Keepalive : Z;
  WillFlag : bool;
  WillTopic : string;
  WillMessage : list byte;
  WillQos : Z;
  WillRetain : bool
}.

End connect.

(** [Identify]; [fresh] is what [xid.New().String()] returns and [now]
    what [time.Now()] returns. The auth controller is stored in [AC],
    which the session record leaves out. *)
Definition Identify (lid : string) (pk : connect.Packet) (fresh : string)
    (now : Z) (cl : Client) : Client :=
  let id :=
    if String.eqb (connect.ClientIdentifier pk) EmptyString
    then fresh else connect.ClientIdentifier pk in
  let cl :=
    {| conn := conn cl;
       r := {| circ.rID := String.append id " READER";
               circ.unread := circ.unread (r cl) |};
       w := {| circ.wID := String.append id " WRITER";
               circ.pushed := circ.pushed (w cl);
               circ.stopped := circ.stopped (w cl) |};
       ID := id;
       Subscriptions := Subscriptions cl;
       Listener := lid;
       InFlight := InFlight cl;
       Username := connect.Username pk;
       keepalive := connect.Keepalive pk;
       cleanSession := connect.CleanSession pk;
       packetID := packetID cl;
       will :=
         if connect.WillFlag pk
         then {| Topic := connect.WillTopic pk;
                 Message := connect.WillMessage pk;
                 WillQos := connect.WillQos pk;
                 WillRetain := connect.WillRetain pk |}
         else will cl;
       state := state cl;
       trace := trace cl |} in
  refreshDeadline now (keepalive cl) cl.

(** ** The read loop *)

(** The handler the broker passes to [Read]: it may change the session
    and returns an error or nil. *)
Definition Handler : Type := Client -> packets.Packet -> Client * option error.

Section ReadLoop.

Context {codec : Codec}.

(** One turn of the loop of [Read] past the exit test: [inl] is the
    [return] that ends the loop (with a panic for an index out of range),
    [inr] the session the next turn starts from. [now] is what
    [time.Now()] returns in this turn. *)
Definition readTurn (now : Z) (h : Handler) (cl : Client)
  : Outcome (option error) + Client :=
  let cl := refreshDeadline now (keepalive cl) cl in
  match ReadFixedHeader zeroFixedHeader cl with
  | Panics => inl Panics
  | Returns (_, Some e) cl => inl (Returns (Some e) cl)
  | Returns (fh, None) cl =>
      let '((pk, err), cl) := ReadPacket fh cl in
      match err with
      | Some e => inl (Returns (Some e) cl)
      | None =>
          let '(cl, err) := h cl pk in
          match err with
          | Some e => inl (Returns (Some e) cl)
          | None => inr cl
          end
      end
  end.

(** [Read]: the loop [for { ... }], which ends by [return] alone. [turns]
    bounds the number of turns followed ([None]: the loop is still going
    after that many); [clock k] is the time of turn [k]. *)
Fixpoint Read (turns : nat) (clock : nat -> Z) (k : nat) (h : Handler)
    (cl : Client) : option (Outcome (option error)) :=
  match turns with
  | O => None
  | S turns' =>
      if (done (state cl) =? 1) && (circ.CapDelta (r cl) =? 0)
      then Some (Returns None cl)
      else
        match readTurn (clock k) h cl with
        | inl out => Some out
        | inr cl => Read turns' clock (S k) h cl
        end
  end.

End ReadLoop.

(** The kinds whose arm of the [switch] in [ReadPacket] calls a decoder. *)
Definition decoded (k : Kind) : bool :=
  match k with
  | KPingreq | KPingresp | KDisconnect => false
  | _ => true
  end.

(** ** What a completed resend pass leaves of a record *)

(** The record a turn of the pass leaves in the place of [tk] when its
    write succeeds: none for a spent record, [tk] itself while its backoff
    runs, the resent record otherwise. *)
Definition afterTurn (force : bool) (nt : Z) (tk : InFlightMessage)
  : option InFlightMessage :=
  if maxResends <=? resends tk then None
  else if negb force
          && match index resendBackoff (resends tk) with
             | Some backoff => Int.sub64 nt (Sent tk) <? backoff
             | None => false
             end
       then Some tk
       else Some (resent nt tk).

(** The packet of [tk], as it is resent, can be written: it has one of the
    fourteen types and its encoder returns no error. *)
Definition writable {codec : Codec} (nt : Z) (tk : InFlightMessage) : Prop :=
  ∃ k, kindOf (Type_ (PFixedHeader (Packet (resent nt tk)))) = Some k
       /\ snd (EncodeBody k (Packet (resent nt tk))) = None.

(** ** Further sessions to run the methods on *)

(** A session with a connection that has no deadline yet. *)
Definition connected : Client :=
  setConn (Some {| deadline := None |}) (sessionOn []).

(** The CONNECT packet of a client without an id that asks for a clean
    session and a keepalive of 60 seconds. *)
Definition anonymousConnect : connect.Packet :=
  {| connect.ClientIdentifier := EmptyString;
     connect.Username := [];
     connect.CleanSession := true;
     connect.Keepalive := 60;
     connect.WillFlag := false;
     connect.WillTopic := EmptyString;
     connect.WillMessage := [];
     connect.WillQos := 0;
     connect.WillRetain := false |}.

(** A PUBLISH frame whose length field, [C1 02], says 321 bytes of
    remainder (one byte shown, 320 zero bytes behind it), followed by the
    first byte of a PINGREQ. *)
Definition longFrame : list byte :=
  [Byte.x30; Byte.xc1; Byte.x02] ++ (Byte.x07 :: replicate 320 Byte.x00)
  ++ [Byte.xc0].

(** A handler that takes every packet and does nothing. *)
Definition idleHandler : Handler := fun cl _ => (cl, None).

(** Two tasks have called [Stop]; the first holds the mutex of the gate and
    is about to wait for the writer, the second has found the done word
    clear and waits for the mutex. *)
Definition oneInGate : StopProtocol.World :=
  {| StopProtocol.st := {| started := 0; endedW := 0; endedR := 0; done := 0;
                           endOnce := false |};
     StopProtocol.holder := Some 0%nat;
     StopProtocol.tasks := [StopProtocol.AtWaitW; StopProtocol.AtLock];
     StopProtocol.entered := 1;
     StopProtocol.did := [StopProtocol.ReaderStopped; StopProtocol.WriterStopped] |}.

(** ** The start protocol

    [Start] adds 2 to the [started] wait group, launches the two drainer
    tasks, adding 1 to [endedW] and to [endedR] after each [go]
    statement, and waits for [started]. Each drainer signals [started],
    runs [WriteTo] or [ReadFrom] until that returns, signals its [ended]
    group and calls [Stop]. The three tasks are followed one atomic action
    at a time. A wait group panics when its counter goes below zero, which
    ends the program. *)

Module StartProtocol.

(** Where the caller of [Start] stands. *)
Inductive mainPc : Type :=
| AddStarted      (* [cl.state.started.Add(2)] *)
| GoWriter        (* the first [go] statement *)
| AddEndedW       (* [cl.state.endedW.Add(1)] *)
| GoReader        (* the second [go] statement *)
| AddEndedR       (* [cl.state.endedR.Add(1)] *)
| WaitStarted     (* [cl.state.started.Wait()] *)
| StartReturned.

(** Where a drainer task stands. *)
Inductive taskPc : Type :=
| StartedDone     (* [cl.state.started.Done()] *)
| Draining        (* inside [WriteTo] or [ReadFrom] *)
| EndedDone       (* [cl.state.endedW.Done()] or [cl.state.endedR.Done()] *)
| CallsStop.      (* past its [Done()]: [cl.Stop()], unless the group panicked *)

(** The caller, the two drainers ([None] before the [go] statement), the
    counters of the three wait groups, and whether a wait group has
    panicked. *)
Record World : Type := {
  mainAt : mainPc;
  writerAt : option taskPc;
  readerAt : option taskPc;
  nStarted : Z;
  nEndedW : Z;
  nEndedR : Z;
  panicked : bool
}.

Inductive Actor : Type := Main | WriterTask | ReaderTask.

(** The next action of the caller of [Start]; [None] while it is blocked
    in [Wait] and after it has returned. *)
Definition mainStep (x : World) : option World :=
  match mainAt x with
  | AddStarted =>
      Some {| mainAt := GoWriter; writerAt := writerAt x; readerAt := readerAt x;
              nStarted := nStarted x + 2; nEndedW := nEndedW x;
              nEndedR := nEndedR x; panicked := panicked x |}
  | GoWriter =>
      Some {| mainAt := AddEndedW; writerAt := Some StartedDone;
              readerAt := readerAt x; nStarted := nStarted x;
              nEndedW := nEndedW x; nEndedR := nEndedR x;
              panicked := panicked x |}
  | AddEndedW =>
      Some {| mainAt := GoReader; writerAt := writerAt x; readerAt := readerAt x;
              nStarted := nStarted x; nEndedW := nEndedW x + 1;
              nEndedR := nEndedR x; panicked := panicked x |}
  | GoReader =>
      Some {| mainAt := AddEndedR; writerAt := writerAt x;
              readerAt := Some StartedDone; nStarted := nStarted x;
              nEndedW := nEndedW x; nEndedR := nEndedR x;
              panicked := panicked x |}
  | AddEndedR =>
      Some {| mainAt := WaitStarted; writerAt := writerAt x;
              readerAt := readerAt x; nStarted := nStarted x;
              nEndedW := nEndedW x; nEndedR := nEndedR x + 1;
              panicked := panicked x |}
  | WaitStarted =>
      if nStarted x =? 0
      then Some {| mainAt := StartReturned; writerAt := writerAt x;
                   readerAt := readerAt x; nStarted := nStarted x;
                   nEndedW := nEndedW x; nEndedR := nEndedR x;
                   panicked := panicked x |}
      else None
  | StartReturned => None
  end.

(** The next action of the writer's drainer. [WriteTo] may return at any
    time. *)
Definition writerStep (x : World) : option World :=
  match writerAt x with
  | None => None
  | Some StartedDone =>
      Some {| mainAt := mainAt x; writerAt := Some Draining;
              readerAt := readerAt x; nStarted := nStarted x - 1;
              nEndedW := nEndedW x; nEndedR := nEndedR x;
              panicked := panicked x || (nStarted x - 1 <? 0) |}
  | Some Draining =>
      Some {| mainAt := mainAt x; writerAt := Some EndedDone;
              readerAt := readerAt x; nStarted := nStarted x;
              nEndedW := nEndedW x; nEndedR := nEndedR x;
              panicked := panicked x |}
  | Some EndedDone =>
      Some {| mainAt := mainAt x; writerAt := Some CallsStop;
              readerAt := readerAt x; nStarted := nStarted x;
              nEndedW := nEndedW x - 1; nEndedR := nEndedR x;
              panicked := panicked x || (nEndedW x - 1 <? 0) |}
  | Some CallsStop => None
  end.

(** The next action of the reader's drainer. *)
Definition readerStep (x : World) : option World :=
  match readerAt x with
  | None => None
  | Some StartedDone =>
      Some {| mainAt := mainAt x; writerAt := writerAt x;
              readerAt := Some Draining; nStarted := nStarted x - 1;
              nEndedW := nEndedW x; nEndedR := nEndedR x;
              panicked := panicked x || (nStarted x - 1 <? 0) |}
  | Some Draining =>
      Some {| mainAt := mainAt x; writerAt := writerAt x;
              readerAt := Some EndedDone; nStarted := nStarted x;
              nEndedW := nEndedW x; nEndedR := nEndedR x;
              panicked := panicked x |}
  | Some EndedDone =>
      Some {| mainAt := mainAt x; writerAt := writerAt x;
              readerAt := Some CallsStop; nStarted := nStarted x;
              nEndedW := nEndedW x; nEndedR := nEndedR x - 1;
              panicked := panicked x || (nEndedR x - 1 <? 0) |}
  | Some CallsStop => None
  end.

(** One action of the system; none once a wait group has panicked. *)
Definition act (a : Actor) (x : World) : option World :=
  if panicked x then None
  else match a with
       | Main => mainStep x
       | WriterTask => writerStep x
       | ReaderTask => readerStep x
       end.

Definition step (x y : World) : Prop := ∃ a, act a x = Some y.

Fixpoint run (sched : list Actor) (x : World) : option World :=
  match sched with
  | [] => Some x
  | a :: rest =>
      match act a x with
      | Some y => run rest y
      | None => None
      end
  end.

(** [Start] is called on a new session: the wait groups are at zero. *)
Definition initial : World :=
  {| mainAt := AddStarted; writerAt := None; readerAt := None;
     nStarted := 0; nEndedW := 0; nEndedR := 0; panicked := false |}.

Definition reachable (x : World) : Prop := rtc step initial x.

(** What the counters must be, given where the tasks stand. *)
Definition addedStarted (m : mainPc) : Z :=
  match m with AddStarted => 0 | _ => 2 end.

Definition addedW (m : mainPc) : Z :=
  match m with AddStarted | GoWriter | AddEndedW => 0 | _ => 1 end.

Definition addedR (m : mainPc) : Z :=
  match m with
  | AddStarted | GoWriter | AddEndedW | GoReader | AddEndedR => 0
  | _ => 1
  end.

Definition registered (t : option taskPc) : Z :=
  match t with None | Some StartedDone => 0 | _ => 1 end.

Definition ended (t : option taskPc) : Z :=
  match t with Some CallsStop => 1 | _ => 0 end.

Definition launched (m : mainPc) (w r : option taskPc) : Prop :=
  match m with
  | AddStarted | GoWriter => w = None /\ r = None
  | AddEndedW | GoReader => w <> None /\ r = None
  | _ => w <> None /\ r <> None
  end.

(** The invariant of the protocol. *)
Definition Inv (x : World) : Prop :=
  launched (mainAt x) (writerAt x) (readerAt x)
  /\ nStarted x = addedStarted (mainAt x) - registered (writerAt x)
                  - registered (readerAt x)
  /\ nEndedW x = addedW (mainAt x) - ended (writerAt x)
  /\ nEndedR x = addedR (mainAt x) - ended (readerAt x)
  /\ (mainAt x = StartReturned -> nStarted x = 0)
  /\ (panicked x = true ->
      (mainAt x = AddEndedW /\ nEndedW x = -1)
      \/ (mainAt x = AddEndedR /\ nEndedR x = -1)).

(** The writer's drainer runs, ends and signals before the caller has
    added it to its wait group. *)
Definition earlyWriter : list Actor :=
  [Main; Main; WriterTask; WriterTask; WriterTask].

(** The two drainers are launched and run, and the caller returns. *)
Definition bothRunning : World :=
  {| mainAt := StartReturned; writerAt := Some Draining;
     readerAt := Some Draining; nStarted := 0; nEndedW := 1; nEndedR := 1;
     panicked := false |}.

(** The schedule that takes the protocol there. *)
Definition bothLaunched : list Actor :=
  [Main; Main; Main; Main; Main; WriterTask; ReaderTask; Main].

(** Where [earlyWriter] leaves the protocol. *)
Definition writerEndedEarly : World :=
  {| mainAt := AddEndedW; writerAt := Some CallsStop; readerAt := None;
     nStarted := 1; nEndedW := -1; nEndedR := 0; panicked := true |}.

End StartProtocol.

(** * Properties *)

(** ** Machine integers *)

Lemma wrap16_small (x : Z) : 0 <= x < 2 ^ 16 -> Int.wrap16 x = x.
Proof. intros H. unfold Int.wrap16. apply Z.mod_small. exact H. Qed.

Lemma wrap32_small (x : Z) : 0 <= x < 2 ^ 32 -> Int.wrap32 x = x.
Proof. intros H. unfold Int.wrap32. apply Z.mod_small. exact H. Qed.

Lemma toInt64_small (x : Z) : 0 <= x < 2 ^ 63 -> Int.toInt64 x = x.
Proof.
  intros H. unfold Int.toInt64, Int.wrap64.
  rewrite Z.mod_small by lia.
  destruct (Z.ltb_spec x (2 ^ 63)); lia.
Qed.

Lemma toInt64_inInt64 (x : Z) : Int.inInt64 x -> Int.toInt64 x = x.
Proof.
  unfold Int.inInt64, Int.toInt64, Int.wrap64. intros H.
  destruct (Z_lt_le_dec x 0) as [Hneg | Hpos].
  - replace (x mod 2 ^ 64) with (x + 2 ^ 64).
    + destruct (Z.ltb_spec (x + 2 ^ 64) (2 ^ 63)); lia.
    + apply Z.mod_unique with (q := -1); lia.
  - rewrite Z.mod_small by lia.
    destruct (Z.ltb_spec x (2 ^ 63)); lia.
Qed.

Lemma wrap16_range (x : Z) : 0 <= Int.wrap16 x < 2 ^ 16.
Proof. unfold Int.wrap16. apply Z.mod_pos_bound. lia. Qed.

Lemma mul64_seconds (x : Z) :
  0 <= x < 2 ^ 16 -> Int.mul64 x Second = x * Second.
Proof.
  intros H. unfold Int.mul64. apply toInt64_small.
  unfold Second. lia.
Qed.

Lemma b2z_range (b : byte) : 0 <= b2z b < 256.
Proof.
  unfold b2z. pose proof (Strings.Byte.to_N_bounded b) as H.
  lia.
Qed.

(** ** The keepalive deadline *)

(** The expiry [refreshDeadline] installs for a positive keepalive: the
    sum is reduced modulo [2^16] before it becomes a duration. *)
Lemma refreshDeadline_installs (now k : Z) (c : Conn) (cl : Client) :
  conn cl = Some c -> 0 < k ->
  conn (refreshDeadline now k cl)
  = Some {| deadline := Some (now + Int.wrap16 (k + k / 2) * Second) |}.
Proof.
  intros Hc Hk. unfold refreshDeadline. rewrite Hc.
  destruct (Z.ltb_spec 0 k) as [_ | Hle]; [| lia].
  cbn. rewrite mul64_seconds by apply wrap16_range. reflexivity.
Qed.

(** Up to 43690 seconds the sum does not wrap and the expiry is one and a
    half times the keepalive away. *)
Lemma refreshDeadline_one_and_a_half (now k : Z) (c : Conn) (cl : Client) :
  conn cl = Some c -> 0 < k <= 43690 ->
  conn (refreshDeadline now k cl)
  = Some {| deadline := Some (now + (k + k / 2) * Second) |}.
Proof.
  intros Hc Hk. rewrite (refreshDeadline_installs now k c) by (auto; lia).
  rewrite wrap16_small; [reflexivity |].
  assert (0 <= k / 2 <= 21845) by (split; [apply Z.div_pos; lia | apply Z.div_le_upper_bound; lia]).
  lia.
Qed.

(** A keepalive of 0 installs the zero time: no deadline. *)
Lemma refreshDeadline_zero (now : Z) (c : Conn) (cl : Client) :
  conn cl = Some c ->
  conn (refreshDeadline now 0 cl) = Some {| deadline := None |}.
Proof. intros Hc. unfold refreshDeadline. rewrite Hc. reflexivity. Qed.

(** Without a connection nothing is installed. *)
Lemma refreshDeadline_nil (now k : Z) (cl : Client) :
  conn cl = None -> refreshDeadline now k cl = cl.
Proof. intros Hc. unfold refreshDeadline. rewrite Hc. reflexivity. Qed.

(** C3. The deadline is meant to lie one and a half keepalives ahead, but
    the sum [keepalive+(keepalive/2)] is formed in [uint16] and wraps from
    43691 on. A keepalive of 43691 seconds installs the expiry [now]
    itself, which is not [now] + (43691 + 43691/2) s; the largest
    keepalive, 65535 seconds, installs [now] + 32766 s. *)
Theorem refreshDeadline_wraps_uint16 (now : Z) (c : Conn) (cl : Client) :
  conn (refreshDeadline now 43691 (setConn (Some c) cl))
  = Some {| deadline := Some now |}
  /\ conn (refreshDeadline now 43691 (setConn (Some c) cl))
     <> Some {| deadline := Some (now + (43691 + 43691 / 2) * Second) |}
  /\ conn (refreshDeadline now 65535 (setConn (Some c) cl))
     = Some {| deadline := Some (now + 32766 * Second) |}.
Proof.
  assert (H1 : conn (refreshDeadline now 43691 (setConn (Some c) cl))
               = Some {| deadline := Some now |}).
  { rewrite (refreshDeadline_installs now 43691 c) by (reflexivity || lia).
    change (Int.wrap16 (43691 + 43691 / 2)) with 0.
    do 3 f_equal. lia. }
  split; [exact H1 |]. split.
  - rewrite H1. intros H. injection H as H.
    change ((43691 + 43691 / 2) * Second) with 65536000000000 in H. lia.
  - rewrite (refreshDeadline_installs now 65535 c) by (reflexivity || lia).
    reflexivity.
Qed.

(** ** A new session *)

(** C10. A client fresh from [NewClient] has the default keepalive of 10
    seconds, no clean session, no subscriptions and nothing in flight, and
    its connection (when it has one) already carries the deadline of the
    default keepalive: 15 seconds from the moment of construction. *)
Theorem NewClient_defaults (now : Z) (c : option Conn) (rd : circ.Reader)
    (wr : circ.Writer) :
  let cl := NewClient now c rd wr in
  keepalive cl = 10
  /\ cleanSession cl = false
  /\ Subscriptions cl = ∅
  /\ InFlight cl = ∅
  /\ conn cl = (fun _ => {| deadline := Some (now + 15 * Second) |}) <$> c
  /\ trace cl = (fun _ => ConnSetDeadline (Some (now + 15 * Second))) <$> option_list c.
Proof.
  destruct c as [c |]; cbn; repeat split; reflexivity.
Qed.

(** ** Packet ids *)

Lemma NextPacketID_cycle (cl : Client) :
  0 <= packetID cl <= 65535 ->
  fst (NextPacketID cl) = cyclePos (packetID cl) + 1
  /\ packetID (snd (NextPacketID cl)) = cyclePos (packetID cl) + 1.
Proof.
  intros Hp. unfold NextPacketID, cyclePos.
  destruct (Z.eqb_spec (packetID cl) 65535) as [E | N1]; cbn.
  - rewrite E. split; reflexivity.
  - destruct (Z.eqb_spec (packetID cl) 0) as [E | N0]; cbn.
    + rewrite E. split; reflexivity.
    + rewrite wrap32_small by lia. rewrite Z.mod_small by lia.
      split; reflexivity.
Qed.

Lemma cyclePos_range (p : Z) : 0 <= cyclePos p < 65535.
Proof. unfold cyclePos. apply Z.mod_pos_bound. lia. Qed.

Lemma NextPacketIDs_length (n : nat) (cl : Client) :
  length (fst (NextPacketIDs n cl)) = n.
Proof.
  revert cl. induction n as [| n IH]; intros cl; [reflexivity |].
  cbn. destruct (NextPacketID cl) as [i cl1].
  specialize (IH cl1). destruct (NextPacketIDs n cl1) as [rest cl2].
  cbn in *. congruence.
Qed.

Lemma NextPacketIDs_nth (n : nat) (cl : Client) (i : nat) :
  0 <= packetID cl <= 65535 -> (i < n)%nat ->
  fst (NextPacketIDs n cl) !! i
  = Some ((cyclePos (packetID cl) + Z.of_nat i) mod 65535 + 1).
Proof.
  revert cl i. induction n as [| n IH]; intros cl i Hp Hi; [lia |].
  destruct (NextPacketID_cycle cl Hp) as [Hv Hs].
  pose proof (cyclePos_range (packetID cl)) as Hr.
  cbn. destruct (NextPacketID cl) as [v cl1]. cbn in Hv, Hs.
  specialize (IH cl1).
  destruct (NextPacketIDs n cl1) as [rest cl2]. cbn in *.
  destruct i as [| i].
  - cbn. rewrite Z.add_0_r, Z.mod_small by lia. congruence.
  - cbn. rewrite IH by lia. f_equal. f_equal.
    rewrite Hs. unfold cyclePos at 1.
    rewrite Zplus_mod_idemp_l. f_equal. lia.
Qed.

(** C4. Sequential calls of [NextPacketID] from the initial counter 0
    return 1, 2, ..., 65535, 1, 2, ...: the call number [i] (counting from
    0) returns [i mod 65535 + 1], which lies in [1, 65535] and is never 0. *)
Theorem NextPacketID_sequence (n : nat) (cl : Client) (i : nat) :
  packetID cl = 0 -> (i < n)%nat ->
  let v := Z.of_nat i mod 65535 + 1 in
  fst (NextPacketIDs n cl) !! i = Some v /\ 1 <= v <= 65535 /\ v <> 0.
Proof.
  intros H0 Hi v. subst v.
  rewrite NextPacketIDs_nth by (assumption || lia).
  rewrite H0. change (cyclePos 0) with 0. rewrite Z.add_0_l.
  pose proof (Z.mod_pos_bound (Z.of_nat i) 65535 ltac:(lia)).
  split; [reflexivity | lia].
Qed.

(** ** The registry *)

Lemma GetByListener_fold (id : string) (l : list (string * Client))
    (acc : list Client) :
  fold_left
    (fun clients kv =>
       let v := snd kv in
       if String.eqb (Listener v) id && (done (state v) =? 0)
       then clients ++ [v] else clients) l acc
  = acc ++ List.filter (live id) (snd <$> l).
Proof.
  revert acc. induction l as [| [k v] l IH]; intros acc; cbn.
  - symmetry. apply app_nil_r.
  - rewrite IH. unfold live at 2. cbn.
    destruct (String.eqb (Listener v) id && (done (state v) =? 0)); cbn.
    + rewrite <- app_assoc. reflexivity.
    + reflexivity.
Qed.

Lemma GetByListener_filter (id : string) (cl : Clients) :
  GetByListener id cl
  = List.filter (live id) (snd <$> map_to_list (internal cl)).
Proof. unfold GetByListener. rewrite GetByListener_fold. reflexivity. Qed.

Lemma live_spec (id : string) (v : Client) :
  live id v = true <-> Listener v = id /\ done (state v) = 0.
Proof.
  unfold live. rewrite andb_true_iff, String.eqb_eq, Z.eqb_eq. reflexivity.
Qed.

(** C6. [GetByListener id] returns exactly the registered sessions whose
    listener is [id] and whose done flag is 0; a session whose done flag
    is 1 is never part of the result. *)
Theorem GetByListener_exact (id : string) (cl : Clients) (v : Client) :
  (v ∈ GetByListener id cl
   <-> (∃ key, internal cl !! key = Some v)
       /\ Listener v = id /\ done (state v) = 0)
  /\ (done (state v) = 1 -> v ∉ GetByListener id cl).
Proof.
  assert (Hiff : v ∈ GetByListener id cl
                 <-> (∃ key, internal cl !! key = Some v)
                     /\ Listener v = id /\ done (state v) = 0).
  { rewrite GetByListener_filter, list_elem_of_In, filter_In, live_spec.
    rewrite <- list_elem_of_In, list_elem_of_fmap.
    split.
    - intros [[[k v'] [-> Hin]] Hlive]. cbn in *.
      apply elem_of_map_to_list in Hin. split; [eauto | exact Hlive].
    - intros [[k Hk] Hlive]. split; [| exact Hlive].
      exists (k, v). split; [reflexivity |].
      apply elem_of_map_to_list. exact Hk. }
  split; [exact Hiff |].
  intros Hd Hin. apply Hiff in Hin. lia.
Qed.

(** ** Reading and writing packets *)

Section SessionProperties.

Context {codec : Codec}.

(** C5. Once the done flag is set, [WritePacket] returns
    [ErrConnectionClosed] (and 0 bytes) at once: the session is left as it
    was, so the writer's lock was not taken, no encoder ran and nothing
    was pushed into the writer. *)
Theorem WritePacket_after_done (now : Z) (pk : packets.Packet) (cl : Client) :
  done (state cl) = 1 ->
  let '((n, err), cl') := WritePacket now pk cl in
  n = 0 /\ err = Some ErrConnectionClosed /\ cl' = cl
  /\ trace cl' = trace cl /\ w cl' = w cl.
Proof.
  intros Hd. unfold WritePacket. rewrite Hd. cbn. repeat split.
Qed.

(** With the done flag clear the lock is the first thing taken. *)
Lemma WritePacket_locks (now : Z) (pk : packets.Packet) (cl : Client) :
  done (state cl) <> 1 ->
  ∃ rest, trace (snd (WritePacket now pk cl)) = trace cl ++ WriterLock :: rest.
Proof.
  intros Hd. unfold WritePacket.
  destruct (Z.eqb_spec (done (state cl)) 1) as [E | _]; [contradiction |].
  destruct (kindOf (Type_ (PFixedHeader pk))) as [k |].
  - destruct (EncodeBody k pk) as [buf [e |]]; cbn.
    + eexists. rewrite <- !app_assoc. reflexivity.
    + destruct (circ.Write buf (w cl)) as [wr [n [e |]]]; cbn.
      * eexists. rewrite <- !app_assoc. reflexivity.
      * unfold refreshDeadline. cbn. destruct (conn cl); cbn;
          eexists; rewrite <- !app_assoc; reflexivity.
  - cbn. eexists. rewrite <- !app_assoc. reflexivity.
Qed.

(** [WritePacket] leaves the in-flight table alone. *)
Lemma WritePacket_InFlight (now : Z) (pk : packets.Packet) (cl : Client) :
  InFlight (snd (WritePacket now pk cl)) = InFlight cl.
Proof.
  unfold WritePacket.
  destruct (done (state cl) =? 1); [reflexivity |].
  destruct (kindOf (Type_ (PFixedHeader pk))) as [k |].
  - destruct (EncodeBody k pk) as [buf [e |]]; cbn; [reflexivity |].
    destruct (circ.Write buf (w cl)) as [wr [n [e |]]]; cbn; [reflexivity |].
    unfold refreshDeadline. cbn. destruct (conn cl); reflexivity.
  - reflexivity.
Qed.

(** The types with no arm in the [switch] are those outside
    CONNECT ... DISCONNECT. *)
Lemma kindOf_None (ty : Z) :
  kindOf ty = None <-> ~ (Connect <= ty <= Disconnect).
Proof.
  unfold kindOf, Connect, Connack, Publish, Puback, Pubrec, Pubrel, Pubcomp,
    Subscribe, Suback, Unsubscribe, Unsuback, Pingreq, Pingresp, Disconnect.
  repeat match goal with
         | |- context [?a =? ?b] => destruct (Z.eqb_spec a b)
         end;
    (split; [intros H; (discriminate H || lia) | intros H; (reflexivity || lia)]).
Qed.

(** C2. [ReadPacket] means to refuse the types outside the fourteen
    kinds, but the early return for an empty remainder comes before the
    [switch]: a header of unknown type with [Remaining = 0] comes back as
    a packet with no error. *)
Theorem ReadPacket_unknown_type_empty (fh : FixedHeader) (cl : Client) :
  kindOf (Type_ fh) = None -> Remaining fh = 0 ->
  ReadPacket fh cl = ((setFixedHeader fh zeroPacket, None), cl).
Proof.
  intros _ Hrem. unfold ReadPacket. cbn. rewrite Hrem. reflexivity.
Qed.

(** With bytes left to read, an unknown type does yield the error. *)
Lemma ReadPacket_unknown_type (fh : FixedHeader) (cl : Client) (p : list byte) :
  kindOf (Type_ fh) = None -> Remaining fh <> 0 ->
  circ.Read (Remaining fh) (r cl) = (p, None) ->
  snd (fst (ReadPacket fh cl)) = Some (ErrNoValidPacket (Type_ fh)).
Proof.
  intros Hk Hrem Hread. unfold ReadPacket. cbn.
  destruct (Z.eqb_spec (Remaining fh) 0) as [E | _]; [contradiction |].
  rewrite Hread, Hk. reflexivity.
Qed.

End SessionProperties.

(** ** The fixed header *)

Lemma lor_shiftl_add (x y s : Z) :
  0 <= s -> 0 <= x < 2 ^ s -> 0 <= y ->
  Z.lor x (Z.shiftl y s) = x + y * 2 ^ s.
Proof.
  intros Hs Hx Hy.
  assert (Hland : Z.land x (Z.shiftl y s) = 0).
  { apply Z.bits_inj'. intros n Hn.
    rewrite Z.land_spec, Z.bits_0.
    destruct (Z_lt_le_dec n s) as [Hlow | Hhigh].
    - rewrite (Z.shiftl_spec_low y s n Hlow). apply andb_false_r.
    - assert (Hbit : Z.testbit x n = false).
      { destruct (Z.eq_dec x 0) as [-> | Hnz]; [apply Z.bits_0 |].
        apply Z.bits_above_log2; [lia |].
        apply Z.log2_lt_pow2; [lia |].
        apply Z.lt_le_trans with (2 ^ s); [lia |].
        apply Z.pow_le_mono_r; lia. }
      rewrite Hbit. reflexivity. }
  rewrite <- Z.lxor_lor by exact Hland.
  rewrite <- Z.add_nocarry_lxor by exact Hland.
  rewrite Z.shiftl_mul_pow2 by exact Hs. reflexivity.
Qed.

Lemma shl64_small (v s : Z) :
  0 <= v < 256 -> 0 <= s <= 56 -> Int.shl64 v s = v * 2 ^ s.
Proof.
  intros Hv Hs. unfold Int.shl64, Int.wrap64.
  rewrite Z.shiftl_mul_pow2 by lia.
  apply Z.mod_small.
  assert (2 ^ s <= 2 ^ 56) by (apply Z.pow_le_mono_r; lia).
  assert (0 < 2 ^ s) by (apply Z.pow_pos_nonneg; lia).
  change (2 ^ 64) with (256 * 2 ^ 56). nia.
Qed.

Lemma land_127 (b : Z) : 0 <= b -> Z.land b 127 = b mod 128.
Proof. intros Hb. change 127 with (Z.ones 7). apply Z.land_ones. lia. Qed.

(** [Uvarint] on a length field that starts at byte [i] of the buffer,
    with [x] accumulated below bit [s]. *)
Lemma uvarintFrom_field (conts : list byte) (last : byte) (i x s : Z) :
  lengthField conts last ->
  0 <= i -> s = 7 * i -> 0 <= x < 2 ^ s ->
  i + Z.of_nat (length conts) <= 8 ->
  binary.uvarintFrom (conts ++ [last]) i x s
  = (x + 2 ^ s * varintValue (conts ++ [last]),
     i + Z.of_nat (length conts) + 1).
Proof.
  revert i x s. induction conts as [| b conts IH]; intros i x s [Hc Hl] Hi Hs Hx Hlen.
  - cbn [app binary.uvarintFrom varintValue length].
    unfold binary.MaxVarintLen64.
    destruct (Z.eqb_spec i 10) as [E | _]; [cbn in Hlen; lia |].
    destruct (Z.ltb_spec (b2z last) 128) as [_ | Hge]; [| lia].
    destruct (Z.eqb_spec i (10 - 1)) as [E | _]; [cbn in Hlen; lia |].
    cbn [andb]. pose proof (b2z_range last) as Hr.
    cbn in Hlen.
    rewrite shl64_small by lia.
    rewrite <- Z.shiftl_mul_pow2 by lia.
    rewrite lor_shiftl_add by lia.
    rewrite Z.mod_small by lia. f_equal; lia.
  - inversion Hc as [| ? ? Hb Hc']; subst.
    cbn [app binary.uvarintFrom varintValue length].
    unfold binary.MaxVarintLen64.
    cbn [length] in Hlen. rewrite Nat2Z.inj_succ in Hlen.
    destruct (Z.eqb_spec i 10) as [E | _]; [lia |].
    destruct (Z.ltb_spec (b2z b) 128) as [Hlt | _]; [lia |].
    pose proof (b2z_range b) as Hr.
    assert (Hm : 0 <= b2z b mod 128 < 128) by (apply Z.mod_pos_bound; lia).
    rewrite land_127 by lia.
    rewrite shl64_small by lia.
    rewrite <- Z.shiftl_mul_pow2 by lia.
    rewrite lor_shiftl_add by lia.
    assert (Hpow : 2 ^ (7 * i + 7) = 128 * 2 ^ (7 * i)).
    { rewrite Z.pow_add_r by lia. change (2 ^ 7) with 128. lia. }
    rewrite (IH (i + 1) _ (7 * i + 7)); try lia.
    + rewrite Nat2Z.inj_succ. f_equal; [| lia].
      rewrite Hpow. lia.
    + split; [exact Hc' | exact Hl].
    + rewrite Hpow.
      assert (0 < 2 ^ (7 * i)) by (apply Z.pow_pos_nonneg; lia).
      nia.
Qed.

Lemma Uvarint_field (conts : list byte) (last : byte) :
  lengthField conts last -> (length conts <= 8)%nat ->
  binary.Uvarint (conts ++ [last])
  = (varintValue (conts ++ [last]), Z.of_nat (length conts) + 1).
Proof.
  intros Hf Hlen. unfold binary.Uvarint.
  rewrite (uvarintFrom_field conts last 0 0 0) by (auto; lia).
  f_equal. lia.
Qed.

Lemma varintValue_range (bs : list byte) :
  0 <= varintValue bs < 128 ^ Z.of_nat (length bs).
Proof.
  induction bs as [| b bs IH].
  - cbn. lia.
  - cbn [varintValue length]. rewrite Nat2Z.inj_succ, Z.pow_succ_r by lia.
    assert (0 <= b2z b mod 128 < 128) by (apply Z.mod_pos_bound; lia).
    lia.
Qed.

Lemma Read_enough (n : Z) (rd : circ.Reader) :
  n <= Z.of_nat (length (circ.unread rd)) ->
  circ.Read n rd = (take (Z.to_nat n) (circ.unread rd), None).
Proof.
  intros Hn. unfold circ.Read.
  destruct (Z.leb_spec n (Z.of_nat (length (circ.unread rd)))); [reflexivity | lia].
Qed.

Section FixedHeaderProperties.

Context {codec : Codec}.

(** One turn of the length loop, on a reader that holds the [n] bytes
    asked for. *)
Lemma lengthLoop_turn (left : nat) (rd : circ.Reader) (buf : list byte)
    (i n : Z) (b : byte) :
  n <= Z.of_nat (length (circ.unread rd)) ->
  take (Z.to_nat n) (circ.unread rd) !! Z.to_nat i = Some b ->
  lengthLoop (S left) rd buf i n
  = if b2z b <? 128 then LoopExit (buf ++ [b]) n
    else if i + 1 =? 4 then LoopReturn ErrOversizedLengthIndicator
         else lengthLoop left rd (buf ++ [b]) (i + 1) (n + 1).
Proof.
  intros Hn Hb. cbn [lengthLoop].
  rewrite Read_enough by exact Hn. rewrite Hb. reflexivity.
Qed.

(** The start of [ReadFixedHeader]: the control byte is there and
    decodes. *)
Lemma ReadFixedHeader_start (fh fh' : FixedHeader) (cl : Client) (b0 : byte)
    (rest : list byte) :
  circ.unread (r cl) = b0 :: rest ->
  Decode fh b0 = (fh', None) ->
  ReadFixedHeader fh cl
  = match lengthLoop 4 (r cl) [] 1 2 with
    | LoopPanic => Panics
    | LoopReturn e => Returns (fh', Some e) cl
    | LoopExit buf n =>
        let '(rem, _) := binary.Uvarint buf in
        Returns (setRemaining (Int.toInt64 rem) fh', None)
          (emit (ReaderCommitTail n) (setReader (circ.CommitTail n (r cl)) cl))
    end.
Proof.
  intros Hu Hdec. unfold ReadFixedHeader.
  rewrite Read_enough by (rewrite Hu; cbn [length]; lia).
  rewrite Hu. change (take (Z.to_nat 1) (b0 :: rest) !! 0%nat) with (Some b0).
  cbv beta iota. rewrite Hdec. reflexivity.
Qed.

(** The turn of the loop that reads [p[i]] with [n] bytes peeked, on the
    reader whose unread bytes [Hu] spells out; [b] is the byte it finds. *)
Ltac turn Hu i n b :=
  rewrite (lengthLoop_turn _ _ _ i n b)
    by (rewrite Hu; first [reflexivity | cbn [length]; lia]).

Ltac continues b :=
  destruct (Z.ltb_spec (b2z b) 128); [lia |].

Ltac terminates b :=
  destruct (Z.ltb_spec (b2z b) 128); [| lia].

(** A length field of one, two or three bytes is accepted: the header
    gets the value of the field as [Remaining], and the control byte and
    the field are committed. *)
Lemma ReadFixedHeader_accepts (fh fh' : FixedHeader) (cl : Client)
    (b0 last : byte) (conts rest : list byte) :
  circ.unread (r cl) = b0 :: conts ++ last :: rest ->
  Decode fh b0 = (fh', None) ->
  lengthField conts last -> (length conts <= 2)%nat ->
  let n := 2 + Z.of_nat (length conts) in
  ReadFixedHeader fh cl
  = Returns (setRemaining (varintValue (conts ++ [last])) fh', None)
      (emit (ReaderCommitTail n) (setReader (circ.CommitTail n (r cl)) cl)).
Proof.
  intros Hu Hdec Hf Hlen n. subst n.
  pose proof (Uvarint_field conts last Hf ltac:(lia)) as Huv.
  pose proof (varintValue_range (conts ++ [last])) as Hrange.
  assert (Hsmall : Int.toInt64 (varintValue (conts ++ [last]))
                   = varintValue (conts ++ [last])).
  { apply toInt64_small. rewrite length_app in Hrange. cbn [length] in Hrange.
    assert (128 ^ Z.of_nat (length conts + 1) <= 128 ^ 3)
      by (apply Z.pow_le_mono_r; lia).
    lia. }
  destruct Hf as [Hc Hl].
  rewrite (ReadFixedHeader_start fh fh' cl b0 _ Hu Hdec).
  destruct conts as [| c1 [| c2 [| c3 conts]]]; cbn [length] in Hlen; [| | | lia];
    cbn [app] in Hu.
  - turn Hu 1 2 last. terminates last.
    cbn [app] in Huv, Hsmall |- *. rewrite Huv, Hsmall. reflexivity.
  - inversion Hc as [| ? ? H1 _]; subst.
    turn Hu 1 2 c1. continues c1. change (1 + 1 =? 4) with false. cbv iota.
    turn Hu (1 + 1) (2 + 1) last. terminates last.
    cbn [app] in Huv, Hsmall |- *. rewrite Huv, Hsmall. reflexivity.
  - inversion Hc as [| ? ? H1 Hc']; subst.
    inversion Hc' as [| ? ? H2 _]; subst.
    turn Hu 1 2 c1. continues c1. change (1 + 1 =? 4) with false. cbv iota.
    turn Hu (1 + 1) (2 + 1) c2. continues c2.
    change (1 + 1 + 1 =? 4) with false. cbv iota.
    turn Hu (1 + 1 + 1) (2 + 1 + 1) last. terminates last.
    cbn [app] in Huv, Hsmall |- *. rewrite Huv, Hsmall. reflexivity.
Qed.

(** C1. A remaining-length field may take four bytes, and the loop is
    bounded for four ([n < 6]), but the test [i == 4] fires right after
    the third continuation byte, before the fourth length byte is looked
    at: a well-formed field of three continuation bytes and a terminator
    is answered with the oversized-length error, whatever follows. *)
Theorem ReadFixedHeader_rejects_four_bytes (fh fh' : FixedHeader)
    (cl : Client) (b0 b1 b2 b3 b4 : byte) (rest : list byte) :
  circ.unread (r cl) = b0 :: b1 :: b2 :: b3 :: b4 :: rest ->
  Decode fh b0 = (fh', None) ->
  lengthField [b1; b2; b3] b4 ->
  ReadFixedHeader fh cl = Returns (fh', Some ErrOversizedLengthIndicator) cl.
Proof.
  intros Hu Hdec [Hc _].
  inversion Hc as [| ? ? H1 Hc1]; subst.
  inversion Hc1 as [| ? ? H2 Hc2]; subst.
  inversion Hc2 as [| ? ? H3 _]; subst.
  rewrite (ReadFixedHeader_start fh fh' cl b0 _ Hu Hdec).
  turn Hu 1 2 b1. continues b1. change (1 + 1 =? 4) with false. cbv iota.
  turn Hu (1 + 1) (2 + 1) b2. continues b2.
  change (1 + 1 + 1 =? 4) with false. cbv iota.
  turn Hu (1 + 1 + 1) (2 + 1 + 1) b3. continues b3.
  reflexivity.
Qed.

End FixedHeaderProperties.

(** ** The resend pass *)

Lemma resent_PacketID (nt : Z) (tk : InFlightMessage) :
  PacketID (Packet (resent nt tk)) = PacketID (Packet tk).
Proof.
  unfold resent. destruct (Type_ (PFixedHeader (Packet tk)) =? Publish); reflexivity.
Qed.

Lemma resent_resends (nt : Z) (tk : InFlightMessage) :
  resends (resent nt tk) = resends tk + 1.
Proof. reflexivity. Qed.

Lemma resent_Sent (nt : Z) (tk : InFlightMessage) : Sent (resent nt tk) = nt.
Proof. reflexivity. Qed.

(** The DUP flag is set on a PUBLISH; any other packet is stored as it
    was. *)
Lemma resent_Dup (nt : Z) (tk : InFlightMessage) :
  (Type_ (PFixedHeader (Packet tk)) = Publish ->
   Packet (resent nt tk)
   = setFixedHeader (setDup true (PFixedHeader (Packet tk))) (Packet tk))
  /\ (Type_ (PFixedHeader (Packet tk)) <> Publish ->
      Packet (resent nt tk) = Packet tk).
Proof.
  unfold resent. split; intros H; cbn.
  - rewrite H. reflexivity.
  - destruct (Z.eqb_spec (Type_ (PFixedHeader (Packet tk))) Publish); [contradiction | reflexivity].
Qed.

Lemma index_Some_range (s : list Z) (i v : Z) :
  index s i = Some v -> 0 <= i < Z.of_nat (length s).
Proof.
  unfold index. destruct (Z.ltb_spec i 0) as [Hneg | Hpos]; [discriminate |].
  intros Hv. apply lookup_lt_Some in Hv. lia.
Qed.

Lemma index_in_range (s : list Z) (i : Z) :
  0 <= i < Z.of_nat (length s) -> is_Some (index s i).
Proof.
  intros Hi. unfold index. destruct (Z.ltb_spec i 0) as [Hneg | Hpos]; [lia |].
  apply lookup_lt_is_Some. lia.
Qed.

Section ResendProperties.

Context {codec : Codec}.

(** The three ways a turn of the loop goes. *)
Lemma resendBody_drop (force : bool) (now nt : Z) (tk : InFlightMessage)
    (cl : Client) :
  maxResends <= resends tk ->
  resendBody force now nt tk cl
  = Returns None (InFlight_Delete (PacketID (Packet tk)) cl).
Proof.
  intros H. unfold resendBody.
  destruct (Z.leb_spec maxResends (resends tk)); [reflexivity | lia].
Qed.

Lemma resendBody_skip (now nt : Z) (tk : InFlightMessage) (cl : Client)
    (backoff : Z) :
  resends tk < maxResends ->
  index resendBackoff (resends tk) = Some backoff ->
  Int.sub64 nt (Sent tk) < backoff ->
  resendBody false now nt tk cl = Returns None cl.
Proof.
  intros Hr Hi Hb. unfold resendBody.
  destruct (Z.leb_spec maxResends (resends tk)); [lia |].
  cbn [negb]. rewrite Hi.
  destruct (Z.ltb_spec (Int.sub64 nt (Sent tk)) backoff); [reflexivity | lia].
Qed.

Lemma resendBody_resend (force : bool) (now nt : Z) (tk : InFlightMessage)
    (cl : Client) :
  resends tk < maxResends ->
  force = true
  \/ (∃ backoff, index resendBackoff (resends tk) = Some backoff
                 /\ backoff <= Int.sub64 nt (Sent tk)) ->
  resendBody force now nt tk cl
  = let tk' := resent nt tk in
    let cl2 := InFlight_Set (PacketID (Packet tk')) tk' cl in
    Returns (snd (fst (WritePacket now (Packet tk') cl2)))
      (snd (WritePacket now (Packet tk') cl2)).
Proof.
  intros Hr Hc. unfold resendBody.
  destruct (Z.leb_spec maxResends (resends tk)); [lia |].
  assert (Hskip :
    (if negb force
     then match index resendBackoff (resends tk) with
          | Some backoff =>
              Some ((Int.sub64 nt (Sent tk) <? backoff)
                    || (Z.of_nat (length resendBackoff) <? resends tk))
          | None => None
          end
     else Some false) = Some false).
  { destruct Hc as [-> | [backoff [Hi Hb]]]; [reflexivity |].
    destruct force; [reflexivity |]. cbn [negb]. rewrite Hi. f_equal.
    destruct (Z.ltb_spec (Int.sub64 nt (Sent tk)) backoff); [lia |].
    destruct (Z.ltb_spec (Z.of_nat (length resendBackoff)) (resends tk)) as [Hlt | _];
      [| reflexivity].
    cbn in Hlt. unfold maxResends in *. lia. }
  rewrite Hskip. cbv zeta.
  destruct (WritePacket now (Packet (resent nt tk))
              (InFlight_Set (PacketID (Packet (resent nt tk))) (resent nt tk) cl))
    as [[n err] cl3].
  reflexivity.
Qed.

(** What a turn that returns has done to the table: dropped the entry,
    left the table alone, or stored the resent record. *)
Lemma resendBody_table (force : bool) (now nt : Z) (tk : InFlightMessage)
    (cl cl' : Client) (e : option error) :
  resendBody force now nt tk cl = Returns e cl' ->
  (maxResends <= resends tk /\ e = None
   /\ InFlight cl' = delete (PacketID (Packet tk)) (InFlight cl))
  \/ (resends tk < maxResends /\ e = None /\ InFlight cl' = InFlight cl)
  \/ (resends tk < maxResends
      /\ InFlight cl' = <[PacketID (Packet tk) := resent nt tk]> (InFlight cl)).
Proof.
  intros H.
  destruct (Z_le_gt_dec maxResends (resends tk)) as [Hge | Hlt].
  - rewrite resendBody_drop in H by exact Hge.
    injection H as <- <-. left.
    split; [exact Hge | split; reflexivity].
  - right. unfold resendBody in H.
    destruct (Z.leb_spec maxResends (resends tk)); [lia |].
    destruct (if negb force
              then match index resendBackoff (resends tk) with
                   | Some backoff =>
                       Some ((Int.sub64 nt (Sent tk) <? backoff)
                             || (Z.of_nat (length resendBackoff) <? resends tk))
                   | None => None
                   end
              else Some false) as [[|] |]; [| | discriminate].
    + injection H as <- <-. left.
      split; [lia | split; reflexivity].
    + right. split; [lia |].
      pose proof (WritePacket_InFlight now (Packet (resent nt tk))
                    (InFlight_Set (PacketID (Packet (resent nt tk))) (resent nt tk) cl))
        as Hw.
      destruct (WritePacket now (Packet (resent nt tk))
                  (InFlight_Set (PacketID (Packet (resent nt tk))) (resent nt tk) cl))
        as [[n err] cl3].
      injection H as <- <-. cbn [snd] in Hw. rewrite Hw.
      rewrite resent_PacketID. reflexivity.
Qed.

End ResendProperties.

Lemma advanced_refl (m : gmap Z InFlightMessage) : advanced m m.
Proof. intros key tk' H. exists tk'. auto. Qed.

Lemma advanced_trans (m1 m2 m3 : gmap Z InFlightMessage) :
  advanced m1 m2 -> advanced m2 m3 -> advanced m1 m3.
Proof.
  intros H12 H23 key tk3 H3.
  destruct (H23 key tk3 H3) as [tk2 [H2 Hc2]].
  destruct (H12 key tk2 H2) as [tk1 [H1 Hc1]].
  exists tk1. split; [exact H1 |].
  destruct Hc2 as [-> | Hlt2]; [exact Hc1 |].
  destruct Hc1 as [-> | Hlt1]; [right; exact Hlt2 | right; lia].
Qed.

Lemma advanced_delete (m : gmap Z InFlightMessage) (key : Z) :
  advanced m (delete key m).
Proof.
  intros k tk' H. apply lookup_delete_Some in H as [_ H].
  exists tk'. auto.
Qed.

Lemma advanced_resent (m : gmap Z InFlightMessage) (key nt : Z)
    (tk : InFlightMessage) :
  m !! key = Some tk -> resends tk < maxResends ->
  advanced m (<[key := resent nt tk]> m).
Proof.
  intros Hk Hr k tk' H. apply lookup_insert_Some in H as [[<- <-] | [_ H]].
  - exists tk. split; [exact Hk |]. right. rewrite resent_resends. lia.
  - exists tk'. auto.
Qed.

Lemma keyed_delete (m : gmap Z InFlightMessage) (key : Z) :
  keyedOnPacketID m -> keyedOnPacketID (delete key m).
Proof.
  intros Hm k tk H. apply lookup_delete_Some in H as [_ H]. exact (Hm k tk H).
Qed.

Lemma keyed_resent (m : gmap Z InFlightMessage) (nt : Z) (tk : InFlightMessage) :
  keyedOnPacketID m ->
  keyedOnPacketID (<[PacketID (Packet tk) := resent nt tk]> m).
Proof.
  intros Hm k tk' H. apply lookup_insert_Some in H as [[<- <-] | [_ H]].
  - apply resent_PacketID.
  - exact (Hm k tk' H).
Qed.

Section ResendPassProperties.

Context {codec : Codec}.

Lemma resendRange_cons (key : Z) (rest : list Z) (force : bool) (now nt : Z)
    (cl : Client) (tk : InFlightMessage) :
  InFlight cl !! key = Some tk ->
  resendRange (key :: rest) force now nt cl
  = match resendBody force now nt tk cl with
    | Panics => Panics
    | Returns (Some e) cl1 => Returns (Some e) cl1
    | Returns None cl1 => resendRange rest force now nt cl1
    end.
Proof. intros H. cbn [resendRange]. unfold InFlight_GetAll. rewrite H. reflexivity. Qed.

Lemma resendRange_cons_absent (key : Z) (rest : list Z) (force : bool)
    (now nt : Z) (cl : Client) :
  InFlight cl !! key = None ->
  resendRange (key :: rest) force now nt cl = resendRange rest force now nt cl.
Proof. intros H. cbn [resendRange]. unfold InFlight_GetAll. rewrite H. reflexivity. Qed.

(** A pass over [pre ++ post] is the pass over [pre], and then, unless a
    write failed, the pass over [post]. *)
Lemma resendRange_app (pre post : list Z) (force : bool) (now nt : Z)
    (cl : Client) :
  resendRange (pre ++ post) force now nt cl
  = match resendRange pre force now nt cl with
    | Panics => Panics
    | Returns (Some e) cl1 => Returns (Some e) cl1
    | Returns None cl1 => resendRange post force now nt cl1
    end.
Proof.
  revert cl. induction pre as [| key pre IH]; intros cl; [reflexivity |].
  cbn [app resendRange].
  destruct (InFlight_GetAll cl !! key) as [tk |]; [| apply IH].
  destruct (resendBody force now nt tk cl) as [[e |] cl1 |]; [reflexivity | apply IH | reflexivity].
Qed.

(** One turn, on a table keyed on packet id. *)
Lemma resendBody_turn (force : bool) (now nt : Z) (key : Z)
    (tk : InFlightMessage) (cl cl' : Client) (e : option error) :
  keyedOnPacketID (InFlight cl) ->
  InFlight cl !! key = Some tk ->
  resendBody force now nt tk cl = Returns e cl' ->
  keyedOnPacketID (InFlight cl')
  /\ advanced (InFlight cl) (InFlight cl')
  /\ (∀ key', key' <> key -> InFlight cl' !! key' = InFlight cl !! key').
Proof.
  intros Hkeyed Hk Hbody.
  pose proof (Hkeyed key tk Hk) as Hid.
  apply resendBody_table in Hbody
    as [(_ & _ & ->) | [(_ & _ & ->) | (Hlt & ->)]]; rewrite ?Hid.
  - split; [apply keyed_delete; exact Hkeyed |].
    split; [apply advanced_delete |].
    intros key' Hne. apply lookup_delete_ne. congruence.
  - split; [exact Hkeyed |]. split; [apply advanced_refl | reflexivity].
  - split; [rewrite <- Hid; apply keyed_resent; exact Hkeyed |].
    split; [apply advanced_resent; assumption |].
    intros key' Hne. apply lookup_insert_ne. congruence.
Qed.

(** A pass that returns keeps the table keyed on packet id, only
    advances it, and leaves alone the keys it does not range over. *)
Lemma resendRange_pass (order : list Z) (force : bool) (now nt : Z)
    (cl cl' : Client) (e : option error) :
  keyedOnPacketID (InFlight cl) ->
  resendRange order force now nt cl = Returns e cl' ->
  keyedOnPacketID (InFlight cl')
  /\ advanced (InFlight cl) (InFlight cl')
  /\ (∀ key, key ∉ order -> InFlight cl' !! key = InFlight cl !! key).
Proof.
  revert cl. induction order as [| k rest IH]; intros cl Hkeyed Hpass.
  - cbn in Hpass. injection Hpass as <- <-.
    split; [exact Hkeyed |]. split; [apply advanced_refl | reflexivity].
  - destruct (InFlight cl !! k) as [tk |] eqn:Hk.
    + rewrite (resendRange_cons _ _ _ _ _ _ tk Hk) in Hpass.
      destruct (resendBody force now nt tk cl) as [[e1 |] cl1 |] eqn:Hbody;
        [| | discriminate].
      * injection Hpass as <- <-.
        destruct (resendBody_turn _ _ _ _ _ _ _ _ Hkeyed Hk Hbody) as (Hk1 & Ha1 & Hf1).
        split; [exact Hk1 |]. split; [exact Ha1 |].
        intros key Hnot. apply Hf1. intros ->. apply Hnot. left.
      * destruct (resendBody_turn _ _ _ _ _ _ _ _ Hkeyed Hk Hbody) as (Hk1 & Ha1 & Hf1).
        destruct (IH cl1 Hk1 Hpass) as (Hk2 & Ha2 & Hf2).
        split; [exact Hk2 |].
        split; [eapply advanced_trans; eassumption |].
        intros key Hnot. rewrite Hf2, Hf1; [reflexivity | |].
        -- intros ->. apply Hnot. left.
        -- intros Hin. apply Hnot. right. exact Hin.
    + rewrite (resendRange_cons_absent _ _ _ _ _ _ Hk) in Hpass.
      destruct (IH cl Hkeyed Hpass) as (Hk2 & Ha2 & Hf2).
      split; [exact Hk2 |]. split; [exact Ha2 |].
      intros key Hnot. apply Hf2. intros Hin. apply Hnot. right. exact Hin.
Qed.

(** A pass that ends without a write error has dropped every record it
    ranged over that had used up its resends. *)
Lemma resendRange_drops (order : list Z) (force : bool) (now nt : Z)
    (cl cl' : Client) (key : Z) (tk : InFlightMessage) :
  keyedOnPacketID (InFlight cl) ->
  resendRange order force now nt cl = Returns None cl' ->
  key ∈ order -> InFlight cl !! key = Some tk -> maxResends <= resends tk ->
  InFlight cl' !! key = None.
Proof.
  revert cl. induction order as [| k rest IH]; intros cl Hkeyed Hpass Hin Hk Hmax.
  - apply elem_of_nil in Hin. contradiction.
  - destruct (InFlight cl !! k) as [tkk |] eqn:Hkk.
    + rewrite (resendRange_cons _ _ _ _ _ _ tkk Hkk) in Hpass.
      destruct (resendBody force now nt tkk cl) as [[e1 |] cl1 |] eqn:Hbody;
        [discriminate | | discriminate].
      destruct (resendBody_turn _ _ _ _ _ _ _ _ Hkeyed Hkk Hbody) as (Hk1 & Ha1 & Hf1).
      destruct (Z.eq_dec key k) as [-> | Hne].
      * assert (tkk = tk) by congruence. subst tkk.
        rewrite resendBody_drop in Hbody by exact Hmax.
        injection Hbody as <-.
        destruct (resendRange_pass _ _ _ _ _ _ _ Hk1 Hpass) as (_ & Ha2 & _).
        destruct (InFlight cl' !! k) as [tk' |] eqn:Hafter; [| reflexivity].
        destruct (Ha2 k tk' Hafter) as [tk1 [H1 _]].
        cbn in H1. rewrite (Hkeyed k tk Hk), lookup_delete_eq in H1. discriminate.
      * apply (IH cl1 Hk1 Hpass).
        -- apply elem_of_cons in Hin as [-> | Hin]; [contradiction | exact Hin].
        -- rewrite Hf1 by exact Hne. exact Hk.
        -- exact Hmax.
    + rewrite (resendRange_cons_absent _ _ _ _ _ _ Hkk) in Hpass.
      apply (IH cl Hkeyed Hpass); [| exact Hk | exact Hmax].
      apply elem_of_cons in Hin as [-> | Hin]; [congruence | exact Hin].
Qed.

Lemma advanced_counts (m m' : gmap Z InFlightMessage) :
  advanced m m' -> countsFromZero m -> countsFromZero m'.
Proof.
  intros Ha Hm key tk' H. destruct (Ha key tk' H) as [tk [Hk [-> | Hlt]]].
  - exact (Hm key tk Hk).
  - pose proof (Hm key tk Hk). lia.
Qed.

(** A turn does not panic when it is forced (the backoff table is not
    read) or the count is not negative. *)
Lemma resendBody_returns (force : bool) (now nt : Z) (tk : InFlightMessage)
    (cl : Client) :
  force = true \/ 0 <= resends tk ->
  ∃ e cl', resendBody force now nt tk cl = Returns e cl'.
Proof.
  intros Hsafe. unfold resendBody.
  destruct (Z.leb_spec maxResends (resends tk)) as [Hge | Hlt]; [eauto |].
  destruct Hsafe as [-> | Hpos].
  - cbv beta iota zeta delta [negb].
    destruct (WritePacket now (Packet (resent nt tk))
                (InFlight_Set (PacketID (Packet (resent nt tk))) (resent nt tk) cl))
      as [[n err] cl3]. eauto.
  - destruct (index_in_range resendBackoff (resends tk)) as [backoff Hi].
    { cbn. unfold maxResends in Hlt. lia. }
    rewrite Hi.
    destruct (negb force); cbv beta iota zeta.
    + destruct ((Int.sub64 nt (Sent tk) <? backoff)
                || (Z.of_nat (length resendBackoff) <? resends tk)); [eauto |].
      destruct (WritePacket now (Packet (resent nt tk))
                  (InFlight_Set (PacketID (Packet (resent nt tk))) (resent nt tk) cl))
        as [[n err] cl3]. eauto.
    + destruct (WritePacket now (Packet (resent nt tk))
                  (InFlight_Set (PacketID (Packet (resent nt tk))) (resent nt tk) cl))
        as [[n err] cl3]. eauto.
Qed.

(** And so a forced pass, or a pass over a table of counts, returns. *)
Lemma resendRange_returns (order : list Z) (force : bool) (now nt : Z)
    (cl : Client) :
  keyedOnPacketID (InFlight cl) ->
  force = true \/ countsFromZero (InFlight cl) ->
  ∃ e cl', resendRange order force now nt cl = Returns e cl'.
Proof.
  revert cl. induction order as [| k rest IH]; intros cl Hkeyed Hsafe.
  - cbn. eauto.
  - destruct (InFlight cl !! k) as [tk |] eqn:Hk.
    + rewrite (resendRange_cons _ _ _ _ _ _ tk Hk).
      destruct (resendBody_returns force now nt tk cl) as (e1 & cl1 & Hbody).
      { destruct Hsafe as [Hf | Hcounts]; [left; exact Hf | right; exact (Hcounts k tk Hk)]. }
      rewrite Hbody.
      destruct (resendBody_turn _ _ _ _ _ _ _ _ Hkeyed Hk Hbody) as (Hk1 & Ha1 & _).
      destruct e1 as [e1 |]; [eauto |].
      apply IH; [exact Hk1 |].
      destruct Hsafe as [Hf | Hcounts]; [left; exact Hf | right].
      eapply advanced_counts; eassumption.
    + rewrite (resendRange_cons_absent _ _ _ _ _ _ Hk). apply IH; assumption.
Qed.

Lemma ResendInflight_nonempty (order : list Z) (force : bool) (now : Z)
    (cl : Client) (key : Z) (tk : InFlightMessage) :
  InFlight cl !! key = Some tk ->
  ResendInflight order force now cl
  = resendRange order force now (now / Second) cl.
Proof.
  intros Hk. unfold ResendInflight, InFlight_Len.
  destruct (Z.eqb_spec (Z.of_nat (size (InFlight cl))) 0) as [E | _]; [| reflexivity].
  assert (Hempty : InFlight cl = ∅) by (apply map_size_empty_iff; lia).
  rewrite Hempty, lookup_empty in Hk. discriminate.
Qed.

End ResendPassProperties.

Section ResendClaims.

Context {codec : Codec}.

(** A record the pass reaches: the turn that skips it leaves it alone,
    the turn that resends it stores it before the write. *)
Lemma ResendInflight_reached (pre post : list Z) (key : Z) (force : bool)
    (now : Z) (cl cl1 : Client) (tk : InFlightMessage) (backoff : Z) :
  keyedOnPacketID (InFlight cl) ->
  NoDup (pre ++ key :: post) ->
  InFlight cl !! key = Some tk ->
  resends tk < maxResends ->
  index resendBackoff (resends tk) = Some backoff ->
  Int.inInt64 (now / Second - Sent tk) ->
  resendRange pre force now (now / Second) cl = Returns None cl1 ->
  let nt := now / Second in
  let pass := ResendInflight (pre ++ key :: post) force now cl in
  (force = false /\ nt - Sent tk < backoff ->
   pass = resendRange post force now nt cl1
   /\ InFlight cl1 !! key = Some tk
   /\ ∀ e cl', pass = Returns e cl' -> InFlight cl' !! key = Some tk)
  /\ (force = true \/ backoff <= nt - Sent tk ->
      let tk' := resent nt tk in
      let cl2 := InFlight_Set key tk' cl1 in
      resends tk' = resends tk + 1
      /\ Sent tk' = nt
      /\ (Type_ (PFixedHeader (Packet tk)) = Publish ->
          Dup (PFixedHeader (Packet tk')) = true)
      /\ (Type_ (PFixedHeader (Packet tk)) <> Publish ->
          Packet tk' = Packet tk)
      /\ InFlight cl2 !! key = Some tk'
      /\ trace cl2 = trace cl1 ++ [InFlightSet key tk']
      /\ pass = match WritePacket now (Packet tk') cl2 with
                | ((_, Some e), cl3) => Returns (Some e) cl3
                | ((_, None), cl3) => resendRange post force now nt cl3
                end
      /\ ∀ e cl', pass = Returns e cl' -> InFlight cl' !! key = Some tk').
Proof.
  intros Hkeyed Hnodup Hk Hlt Hidx Hrange Hpre nt pass.
  subst nt. set (nt := now / Second) in *.
  assert (Hsub : Int.sub64 nt (Sent tk) = nt - Sent tk)
    by (apply toInt64_inInt64; exact Hrange).
  apply NoDup_app in Hnodup as (_ & Hpre_key & Hnodup).
  apply NoDup_cons in Hnodup as [Hpost_key _].
  assert (Hnotpre : key ∉ pre).
  { intros Hin. apply (Hpre_key key Hin). left. }
  destruct (resendRange_pass _ _ _ _ _ _ _ Hkeyed Hpre) as (Hkeyed1 & _ & Hframe1).
  assert (Hk1 : InFlight cl1 !! key = Some tk) by (rewrite Hframe1; assumption).
  assert (Hpass : pass = match resendBody force now nt tk cl1 with
                         | Panics => Panics
                         | Returns (Some e) cl3 => Returns (Some e) cl3
                         | Returns None cl3 => resendRange post force now nt cl3
                         end).
  { subst pass. rewrite (ResendInflight_nonempty _ _ _ _ key tk Hk).
    rewrite resendRange_app. fold nt. rewrite Hpre.
    apply resendRange_cons. exact Hk1. }
  pose proof (Hkeyed key tk Hk) as Hid.
  split.
  - intros [-> Hwait].
    rewrite (resendBody_skip now nt tk cl1 backoff) in Hpass by (assumption || lia).
    split; [exact Hpass |]. split; [exact Hk1 |].
    intros e cl' Hret. rewrite Hpass in Hret.
    destruct (resendRange_pass _ _ _ _ _ _ _ Hkeyed1 Hret) as (_ & _ & Hframe2).
    rewrite Hframe2 by exact Hpost_key. exact Hk1.
  - intros Hdue tk' cl2.
    assert (Hstored : InFlight cl2 !! key = Some tk') by apply lookup_insert_eq.
    rewrite resendBody_resend in Hpass; [| exact Hlt |].
    2:{ destruct Hdue as [-> | Hdue]; [left; reflexivity |].
        right. exists backoff. split; [exact Hidx | lia]. }
    cbv zeta in Hpass. rewrite resent_PacketID, Hid in Hpass.
    fold tk' in Hpass. fold cl2 in Hpass.
    pose proof (WritePacket_InFlight now (Packet tk') cl2) as Hw.
    destruct (WritePacket now (Packet tk') cl2) as [[n err] cl3].
    cbn [fst snd] in Hpass, Hw.
    split; [reflexivity |]. split; [reflexivity |].
    split.
    { intros Hty. unfold tk', resent. rewrite Hty. reflexivity. }
    split; [apply resent_Dup |].
    split; [exact Hstored |]. split; [reflexivity |].
    assert (Hk3 : InFlight cl3 !! key = Some tk') by (rewrite Hw; exact Hstored).
    assert (Hkeyed3 : keyedOnPacketID (InFlight cl3)).
    { rewrite Hw. cbn. rewrite <- Hid. apply keyed_resent. exact Hkeyed1. }
    destruct err as [e3 |].
    + split; [exact Hpass |].
      intros e cl' Hret. rewrite Hpass in Hret. injection Hret as <- <-. exact Hk3.
    + split; [exact Hpass |].
      intros e cl' Hret. rewrite Hpass in Hret.
      destruct (resendRange_pass _ _ _ _ _ _ _ Hkeyed3 Hret) as (_ & _ & Hframe2).
      rewrite Hframe2 by exact Hpost_key. exact Hk3.
Qed.

(** A record behind a write that failed: the pass has ended before its
    turn and the record is as it was. *)
Lemma ResendInflight_unreached (pre post : list Z) (key : Z) (force : bool)
    (now : Z) (cl cl1 : Client) (tk : InFlightMessage) (e : error) :
  keyedOnPacketID (InFlight cl) ->
  NoDup (pre ++ key :: post) ->
  InFlight cl !! key = Some tk ->
  resendRange pre force now (now / Second) cl = Returns (Some e) cl1 ->
  ResendInflight (pre ++ key :: post) force now cl = Returns (Some e) cl1
  /\ InFlight cl1 !! key = Some tk.
Proof.
  intros Hkeyed Hnodup Hk Hpre.
  apply NoDup_app in Hnodup as (_ & Hpre_key & _).
  assert (Hnotpre : key ∉ pre).
  { intros Hin. apply (Hpre_key key Hin). left. }
  destruct (resendRange_pass _ _ _ _ _ _ _ Hkeyed Hpre) as (_ & _ & Hframe1).
  split.
  - rewrite (ResendInflight_nonempty _ _ _ _ key tk Hk).
    rewrite resendRange_app, Hpre. reflexivity.
  - rewrite Hframe1 by exact Hnotpre. exact Hk.
Qed.

(** C7, as amended. In a resend pass, take a record with fewer than
    [maxResends] resends. When the pass reaches it (no write for an
    earlier record has failed): if [force] is false and [now - last_sent]
    is below [backoff[resend_count]], the turn changes nothing and the
    record is the same after the pass; otherwise the record is resent:
    DUP set on a PUBLISH, one more resend, sent now; it is stored in the
    table first and the write is attempted on the session that already
    holds it, so that the table holds the advanced record after the pass,
    also when this write (or a later one) fails. When the write for an
    earlier record has failed, the pass has returned that error and the
    record is as it was, due or not. *)
Theorem ResendInflight_record (pre post : list Z) (key : Z) (force : bool)
    (now : Z) (cl : Client) (tk : InFlightMessage) (backoff : Z) :
  keyedOnPacketID (InFlight cl) ->
  NoDup (pre ++ key :: post) ->
  InFlight cl !! key = Some tk ->
  resends tk < maxResends ->
  index resendBackoff (resends tk) = Some backoff ->
  Int.inInt64 (now / Second - Sent tk) ->
  let nt := now / Second in
  let pass := ResendInflight (pre ++ key :: post) force now cl in
  (∀ cl1, resendRange pre force now nt cl = Returns None cl1 ->
     (force = false /\ nt - Sent tk < backoff ->
      pass = resendRange post force now nt cl1
      /\ InFlight cl1 !! key = Some tk
      /\ ∀ e cl', pass = Returns e cl' -> InFlight cl' !! key = Some tk)
     /\ (force = true \/ backoff <= nt - Sent tk ->
         let tk' := resent nt tk in
         let cl2 := InFlight_Set key tk' cl1 in
         resends tk' = resends tk + 1
         /\ Sent tk' = nt
         /\ (Type_ (PFixedHeader (Packet tk)) = Publish ->
             Dup (PFixedHeader (Packet tk')) = true)
         /\ (Type_ (PFixedHeader (Packet tk)) <> Publish ->
             Packet tk' = Packet tk)
         /\ InFlight cl2 !! key = Some tk'
         /\ trace cl2 = trace cl1 ++ [InFlightSet key tk']
         /\ pass = match WritePacket now (Packet tk') cl2 with
                   | ((_, Some e), cl3) => Returns (Some e) cl3
                   | ((_, None), cl3) => resendRange post force now nt cl3
                   end
         /\ ∀ e cl', pass = Returns e cl' -> InFlight cl' !! key = Some tk'))
  /\ (∀ e cl1, resendRange pre force now nt cl = Returns (Some e) cl1 ->
       pass = Returns (Some e) cl1 /\ InFlight cl1 !! key = Some tk).
Proof.
  intros Hkeyed Hnodup Hk Hlt Hidx Hrange nt pass. split.
  - intros cl1 Hpre.
    exact (ResendInflight_reached pre post key force now cl cl1 tk backoff
             Hkeyed Hnodup Hk Hlt Hidx Hrange Hpre).
  - intros e cl1 Hpre.
    exact (ResendInflight_unreached pre post key force now cl cl1 tk e
             Hkeyed Hnodup Hk Hpre).
Qed.

(** C8, as amended. A resend pass over a table keyed on packet id (forced,
    or with no negative count to look up a backoff for) returns; every
    record left in the table was in it before with a count no higher; the
    bound [resends <= maxResends] carries over; and when the pass ends
    without a write error every record that had used up its resends is
    gone. (A write error ends the pass where it occurs, and the records
    it has not reached stay as they are.) *)
Theorem ResendInflight_pass (order : list Z) (force : bool) (now : Z)
    (cl : Client) :
  keyedOnPacketID (InFlight cl) ->
  rangeOrder order (InFlight cl) ->
  force = true \/ countsFromZero (InFlight cl) ->
  ∃ e cl',
    ResendInflight order force now cl = Returns e cl'
    /\ (∀ key tk', InFlight cl' !! key = Some tk' ->
          ∃ tk, InFlight cl !! key = Some tk /\ resends tk <= resends tk')
    /\ (e = None ->
        ∀ key tk, InFlight cl !! key = Some tk -> maxResends <= resends tk ->
          InFlight cl' !! key = None)
    /\ ((∀ key tk, InFlight cl !! key = Some tk -> resends tk <= maxResends) ->
        ∀ key tk', InFlight cl' !! key = Some tk' -> resends tk' <= maxResends).
Proof.
  intros Hkeyed [_ Horder] Hsafe.
  unfold ResendInflight, InFlight_Len.
  destruct (Z.eqb_spec (Z.of_nat (size (InFlight cl))) 0) as [Hsize | _].
  - assert (Hempty : InFlight cl = ∅) by (apply map_size_empty_iff; lia).
    exists None, cl. split; [reflexivity |]. split; [| split].
    + intros key tk' H. exists tk'. split; [exact H | lia].
    + intros _ key tk H _. rewrite Hempty, lookup_empty in H. discriminate.
    + intros Hb key tk' H. exact (Hb key tk' H).
  - destruct (resendRange_returns order force now (now / Second) cl Hkeyed Hsafe)
      as (e & cl' & Hpass).
    exists e, cl'. split; [exact Hpass |].
    destruct (resendRange_pass _ _ _ _ _ _ _ Hkeyed Hpass) as (_ & Hadv & _).
    split; [| split].
    + intros key tk' H. destruct (Hadv key tk' H) as [tk [Hk [-> | Hlt]]];
        exists tk; (split; [exact Hk | lia]).
    + intros -> key tk Hk Hmax.
      eapply resendRange_drops; try eassumption.
      apply Horder. eauto.
    + intros Hb key tk' H. destruct (Hadv key tk' H) as [tk [Hk [-> | Hlt]]].
      * exact (Hb key tk Hk).
      * lia.
Qed.

End ResendClaims.

(** ** The stop protocol *)

Section StopProperties.

Import StopProtocol.

Lemma lookup_goto (i j : nat) (p p' : pc) (x : World) :
  tasks x !! i = Some p ->
  tasks (goto i p' x) !! j = if decide (j = i) then Some p' else tasks x !! j.
Proof.
  intros Hp. cbn. destruct (decide (j = i)) as [-> | Hne].
  - apply list_lookup_insert_eq. eapply lookup_lt_Some. exact Hp.
  - apply list_lookup_insert_ne. congruence.
Qed.

Lemma Inv_initial (n : nat) (nw nr : Z) : Inv (initial n nw nr).
Proof.
  split; cbn.
  - intros j p Hj Hin. apply lookup_replicate in Hj as [-> _]. discriminate.
  - intros i Hi. discriminate.
  - reflexivity.
  - intros j Hj. apply lookup_replicate in Hj as [Hj _]. discriminate.
Qed.

(** A task outside the gate moves to a place outside the gate. *)
Lemma Inv_outside (x : World) (i : nat) (p p' : pc) :
  Inv x -> tasks x !! i = Some p ->
  inGate p = false -> inGate p' = false ->
  (p' = Returned -> endOnce (st x) = true) ->
  Inv (goto i p' x).
Proof.
  intros [Hg Hh Hp Hr] Hi Hout Hout' Hret.
  assert (Hother : ∀ h, holder x = Some h -> h <> i).
  { intros h Hholder ->. destruct (Hh i Hholder) as [q [Hq Hin]]. congruence. }
  split.
  - intros j q Hj Hin. rewrite (lookup_goto i j p p' x Hi) in Hj.
    destruct (decide (j = i)); [congruence |]. exact (Hg j q Hj Hin).
  - intros h Hholder. cbn in Hholder.
    destruct (Hh h Hholder) as [q [Hq Hin]]. exists q. split; [| exact Hin].
    rewrite (lookup_goto i h p p' x Hi).
    destruct (decide (h = i)) as [-> | _]; [| exact Hq].
    exfalso. exact (Hother i Hholder eq_refl).
  - replace (holderAt (goto i p' x)) with (holderAt x); [exact Hp |].
    unfold holderAt. cbn [holder goto].
    destruct (holder x) as [h |] eqn:Hholder; [| reflexivity].
    rewrite (lookup_goto i h p p' x Hi).
    destruct (decide (h = i)) as [-> | _]; [| reflexivity].
    exfalso. exact (Hother i eq_refl eq_refl).
  - intros j Hj. rewrite (lookup_goto i j p p' x Hi) in Hj. cbn.
    destruct (decide (j = i)); [apply Hret; congruence | exact (Hr j Hj)].
Qed.

(** A task takes the gate's mutex. *)
Lemma Inv_acquire (x : World) (i : nat) :
  Inv x -> tasks x !! i = Some AtLock -> holder x = None ->
  Inv (goto i AtCheck (withHolder (Some i) x)).
Proof.
  intros [Hg Hh Hp Hr] Hi Hfree.
  assert (Hi' : tasks (withHolder (Some i) x) !! i = Some AtLock) by exact Hi.
  split.
  - intros j q Hj Hin. rewrite (lookup_goto i j _ _ _ Hi') in Hj. cbn.
    destruct (decide (j = i)) as [-> | _]; [reflexivity |].
    cbn in Hj. pose proof (Hg j q Hj Hin). congruence.
  - intros h Hholder. cbn in Hholder. injection Hholder as <-.
    exists AtCheck. split; [| reflexivity].
    rewrite (lookup_goto i i _ _ _ Hi'). destruct (decide (i = i)); congruence.
  - unfold holderAt in *. rewrite Hfree in Hp.
    pose proof (lookup_goto i i _ AtCheck _ Hi') as Hl.
    destruct (decide (i = i)); [| congruence].
    cbn in Hl |- *. rewrite Hl.
    destruct (endOnce (st x)); exact Hp.
  - intros j Hj. rewrite (lookup_goto i j _ _ _ Hi') in Hj. cbn.
    destruct (decide (j = i)); [discriminate | exact (Hr j Hj)].
Qed.

(** The holder of the mutex takes one more action inside the gate. *)
Lemma Inv_inside (x : World) (i : nat) (p p' : pc) (s' : clientState)
    (entered' : nat) (did' : list BodyEvent) :
  Inv x -> tasks x !! i = Some p ->
  inGate p = true -> inGate p' = true ->
  progress (Some p') (endOnce s') = Some (done s', entered', did') ->
  (endOnce (st x) = true -> endOnce s' = true) ->
  Inv {| st := s'; holder := holder x; tasks := <[i := p']> (tasks x);
         entered := entered'; did := did' |}.
Proof.
  intros [Hg Hh Hp Hr] Hi Hin Hin' Hprog Honce.
  pose proof (Hg i p Hi Hin) as Hholder.
  assert (Hl : ∀ j, <[i := p']> (tasks x) !! j
                    = if decide (j = i) then Some p' else tasks x !! j).
  { intros j. apply (lookup_goto i j p p' x Hi). }
  split; cbn.
  - intros j q Hj Hq. rewrite Hl in Hj.
    destruct (decide (j = i)) as [-> | _]; [exact Hholder | exact (Hg j q Hj Hq)].
  - intros h Hhold. rewrite Hholder in Hhold. injection Hhold as <-.
    exists p'. split; [| exact Hin'].
    rewrite Hl. destruct (decide (i = i)); congruence.
  - unfold holderAt. cbn. rewrite Hholder, Hl.
    destruct (decide (i = i)); [exact Hprog | congruence].
  - intros j Hj. rewrite Hl in Hj.
    destruct (decide (j = i)) as [-> | _].
    + injection Hj as ->. discriminate.
    + apply Honce. exact (Hr j Hj).
Qed.

(** The holder gives the mutex back and returns. *)
Lemma Inv_release (x : World) (i : nat) :
  Inv x -> tasks x !! i = Some AtUnlock ->
  Inv (goto i Returned (withHolder None x)).
Proof.
  intros [Hg Hh Hp Hr] Hi.
  pose proof (Hg i AtUnlock Hi eq_refl) as Hholder.
  assert (Hi' : tasks (withHolder None x) !! i = Some AtUnlock) by exact Hi.
  assert (Honce : endOnce (st x) = true).
  { unfold holderAt in Hp. rewrite Hholder, Hi in Hp.
    destruct (endOnce (st x)); [reflexivity | discriminate]. }
  split.
  - intros j q Hj Hq. rewrite (lookup_goto i j _ _ _ Hi') in Hj.
    destruct (decide (j = i)) as [-> | Hne].
    + injection Hj as <-. discriminate.
    + cbn in Hj. pose proof (Hg j q Hj Hq). congruence.
  - intros h Hhold. discriminate.
  - unfold holderAt in *. rewrite Hholder, Hi in Hp.
    cbn. rewrite Honce in *. exact Hp.
  - intros j Hj. exact Honce.
Qed.

(** The action of the holder that leads from [p] to [p'] and leaves the
    shared state [s'], [e'] entries and the record [d']. *)
Ltac inside HI Hi p p' s' e' d' :=
  apply (Inv_inside _ _ p p' s' e' d' HI Hi eq_refl eq_refl);
  cbn;
  repeat match goal with
         | H : endOnce _ = _ |- _ => rewrite H
         | H : _ = did _ |- _ => rewrite <- H
         | H : _ = entered _ |- _ => rewrite <- H
         | H : _ = done _ |- _ => rewrite <- H
         end;
  cbn; unfold bodyInFull; congruence.

Lemma Inv_taskStep (i : nat) (x y : World) :
  Inv x -> taskStep i x = Some y -> Inv y.
Proof.
  intros HI Hstep. unfold taskStep in Hstep.
  destruct (tasks x !! i) as [p |] eqn:Hi; [| discriminate].
  pose proof (inv_progress x HI) as Hp.
  assert (Hat : inGate p = true -> holderAt x = Some p).
  { intros Hin. unfold holderAt. rewrite (inv_gate x HI i p Hi Hin). exact Hi. }
  destruct p.
  - (* AtCall *)
    destruct (endOnce (st x)) eqn:Honce; injection Hstep as <-;
      apply (Inv_outside x i AtCall); auto; discriminate.
  - (* AtLock *)
    destruct (holder x) eqn:Hfree; [discriminate |]. injection Hstep as <-.
    apply Inv_acquire; assumption.
  - (* AtCheck *)
    rewrite (Hat eq_refl) in Hp.
    destruct (endOnce (st x)) eqn:Honce; injection Hstep as <-;
      injection Hp as Hd He Hl.
    + inside HI Hi AtCheck AtUnlock (st x) (entered x) (did x).
    + inside HI Hi AtCheck AtReaderStop (st x) (S (entered x)) (did x).
  - (* AtReaderStop *)
    rewrite (Hat eq_refl) in Hp. injection Hstep as <-.
    destruct (endOnce (st x)) eqn:Honce; [discriminate |].
    injection Hp as Hd He Hl.
    inside HI Hi AtReaderStop AtWriterStop (st x) (entered x)
      (did x ++ [ReaderStopped]).
  - (* AtWriterStop *)
    rewrite (Hat eq_refl) in Hp. injection Hstep as <-.
    destruct (endOnce (st x)) eqn:Honce; [discriminate |].
    injection Hp as Hd He Hl.
    inside HI Hi AtWriterStop AtWaitW (st x) (entered x)
      (did x ++ [WriterStopped]).
  - (* AtWaitW *)
    rewrite (Hat eq_refl) in Hp.
    destruct (endedW (st x) =? 0); [| discriminate]. injection Hstep as <-.
    destruct (endOnce (st x)) eqn:Honce; [discriminate |].
    injection Hp as Hd He Hl.
    inside HI Hi AtWaitW AtWaitR (st x) (entered x) (did x ++ [WaitedW]).
  - (* AtWaitR *)
    rewrite (Hat eq_refl) in Hp.
    destruct (endedR (st x) =? 0); [| discriminate]. injection Hstep as <-.
    destruct (endOnce (st x)) eqn:Honce; [discriminate |].
    injection Hp as Hd He Hl.
    inside HI Hi AtWaitR AtStoreDone (st x) (entered x) (did x ++ [WaitedR]).
  - (* AtStoreDone *)
    rewrite (Hat eq_refl) in Hp. injection Hstep as <-.
    destruct (endOnce (st x)) eqn:Honce; [discriminate |].
    injection Hp as Hd He Hl.
    inside HI Hi AtStoreDone AtOnceDone (setDone 1 (st x)) (entered x)
      (did x ++ [DoneStored]).
  - (* AtOnceDone *)
    rewrite (Hat eq_refl) in Hp. injection Hstep as <-.
    destruct (endOnce (st x)) eqn:Honce; [discriminate |].
    injection Hp as Hd He Hl.
    inside HI Hi AtOnceDone AtUnlock (setEndOnce true (st x)) (entered x) (did x).
  - (* AtUnlock *)
    injection Hstep as <-. apply Inv_release; assumption.
  - discriminate.
Qed.

Lemma Inv_step (x y : World) : Inv x -> step x y -> Inv y.
Proof.
  intros HI [[i | nw nr] Hact]; cbn in Hact.
  - exact (Inv_taskStep i x y HI Hact).
  - injection Hact as <-. destruct HI as [Hg Hh Hp Hr].
    split; assumption.
Qed.

Lemma Inv_reachable (n : nat) (nw nr : Z) (x : World) :
  reachable n nw nr x -> Inv x.
Proof.
  unfold reachable. revert x.
  apply (rtc_ind_r (fun x => Inv x)); [apply Inv_initial |].
  intros y z _ Hstep IH. exact (Inv_step y z IH Hstep).
Qed.

End StopProperties.

Section StopClaim.

Import StopProtocol.





(** A schedule that runs is an execution. *)
Lemma run_sound (sched : list Action) (x y : World) :
  run sched x = Some y -> rtc step x y.
Proof.
  revert x. induction sched as [| a sched IH]; intros x H; cbn in H.
  - injection H as <-. apply rtc_refl.
  - destruct (act a x) as [x1 |] eqn:Hact; [| discriminate].
    eapply rtc_l; [exists a; exact Hact | apply IH; exact H].
Qed.





End StopClaim.

(** * The properties at work *)

(** C1 at the bytes [30 80 80 80 01]: a PUBLISH whose remaining length,
    2097152, takes four bytes. *)
Lemma ReadFixedHeader_rejects_four_bytes_witness :
  lengthField [Byte.x80; Byte.x80; Byte.x80] Byte.x01
  /\ ReadFixedHeader (codec := plainCodec) zeroFixedHeader
       (sessionOn [Byte.x30; Byte.x80; Byte.x80; Byte.x80; Byte.x01])
     = Returns
         ({| Type_ := 3; Dup := false; Qos := 0; Retain := false;
             Remaining := 0 |},
          Some ErrOversizedLengthIndicator)
         (sessionOn [Byte.x30; Byte.x80; Byte.x80; Byte.x80; Byte.x01]).
Proof.
  assert (Hfield : lengthField [Byte.x80; Byte.x80; Byte.x80] Byte.x01).
  { split; [repeat constructor; vm_compute; discriminate | reflexivity]. }
  split; [exact Hfield |].
  apply (ReadFixedHeader_rejects_four_bytes (codec := plainCodec)
           zeroFixedHeader _ _ Byte.x30 Byte.x80 Byte.x80 Byte.x80
           Byte.x01 []);
    [reflexivity | reflexivity | exact Hfield].
Defined.

(** C2 at the control byte [F0] with no remainder: type 15 is none of the
    fourteen kinds. *)
Lemma ReadPacket_unknown_type_empty_witness :
  kindOf 15 = None
  /\ ReadPacket (codec := plainCodec)
       {| Type_ := 15; Dup := false; Qos := 0; Retain := false; Remaining := 0 |}
       (sessionOn [])
     = ((setFixedHeader
           {| Type_ := 15; Dup := false; Qos := 0; Retain := false;
              Remaining := 0 |} zeroPacket, None),
        sessionOn []).
Proof.
  split; [reflexivity |].
  apply (ReadPacket_unknown_type_empty (codec := plainCodec)); reflexivity.
Defined.

(** C4 at the call after the 65535th: the counter has wrapped and the
    call returns 1. *)
Lemma NextPacketID_sequence_witness :
  packetID (sessionOn []) = 0
  /\ (Z.to_nat 65535 < Z.to_nat 65537)%nat
  /\ fst (NextPacketIDs (Z.to_nat 65537) (sessionOn [])) !! Z.to_nat 65535
     = Some 1.
Proof.
  split; [reflexivity |]. split; [lia |].
  destruct (NextPacketID_sequence (Z.to_nat 65537) (sessionOn [])
              (Z.to_nat 65535) eq_refl ltac:(lia)) as [H _].
  rewrite Z2Nat.id in H by lia. exact H.
Defined.

(** C5 on the stopped session. *)
Lemma WritePacket_after_done_witness :
  done (state stoppedSession) = 1
  /\ WritePacket (codec := plainCodec) 0 (Packet (publishInFlight 1 100 0))
       stoppedSession
     = ((0, Some ErrConnectionClosed), stoppedSession).
Proof.
  split; [reflexivity |].
  pose proof (WritePacket_after_done (codec := plainCodec) 0
                (Packet (publishInFlight 1 100 0)) stoppedSession eq_refl) as H.
  destruct (WritePacket 0 (Packet (publishInFlight 1 100 0)) stoppedSession)
    as [[n err] cl'].
  destruct H as (-> & -> & -> & _). reflexivity.
Defined.

Lemma twoInFlight_keyed : keyedOnPacketID twoInFlight.
Proof.
  intros key tk H. unfold twoInFlight in H.
  rewrite !lookup_insert_Some, lookup_empty in H.
  destruct H as [[<- <-] | [_ [[<- <-] | [_ H]]]];
    [reflexivity | reflexivity | discriminate].
Qed.

Lemma twoInFlight_counts : countsFromZero twoInFlight.
Proof.
  intros key tk H. unfold twoInFlight in H.
  rewrite !lookup_insert_Some, lookup_empty in H.
  destruct H as [[<- <-] | [_ [[<- <-] | [_ H]]]];
    [cbn; lia | cbn; lia | discriminate].
Qed.

Lemma twoInFlight_order : rangeOrder [1; 2] twoInFlight.
Proof.
  split.
  - compute_done.
  - intros key. unfold twoInFlight. split.
    + intros Hin. apply elem_of_cons in Hin as [-> | Hin]; [eexists; reflexivity |].
      apply elem_of_cons in Hin as [-> | Hin]; [eexists; reflexivity |].
      apply elem_of_nil in Hin. contradiction.
    + intros [tk H].
      rewrite !lookup_insert_Some, lookup_empty in H.
      destruct H as [[<- _] | [_ [[<- _] | [_ H]]]];
        [set_solver | set_solver | discriminate].
Qed.

(** C7, as amended, on the running session at second 100, in the order
    1, 2: packet 1, sent at second 100 and never resent, is reached and
    due at once ([backoff[0]] is 0), and is stored with DUP set and one
    resend before its write. *)
Lemma ResendInflight_record_witness :
  InFlight runningSession !! 1 = Some (publishInFlight 1 100 0)
  /\ resendRange (codec := plainCodec) [] false (100 * Second)
       (100 * Second / Second) runningSession
     = Returns None runningSession
  /\ resends (resent 100 (publishInFlight 1 100 0)) = 1
  /\ Dup (PFixedHeader (Packet (resent 100 (publishInFlight 1 100 0)))) = true
  /\ InFlight (InFlight_Set 1 (resent 100 (publishInFlight 1 100 0)) runningSession)
       !! 1
     = Some (resent 100 (publishInFlight 1 100 0))
  /\ InFlight afterPass !! 1 = Some (resent 100 (publishInFlight 1 100 0)).
Proof.
  split; [reflexivity |]. split; [reflexivity |].
  destruct (ResendInflight_record (codec := plainCodec) [] [2] 1 false
              (100 * Second) runningSession
              (publishInFlight 1 100 0) 0) as [Hreached _].
  - exact twoInFlight_keyed.
  - compute_done.
  - reflexivity.
  - reflexivity.
  - reflexivity.
  - vm_compute. split; [discriminate | reflexivity].
  - destruct (Hreached runningSession eq_refl) as [_ Hdue].
    destruct Hdue as (Hcount & _ & Hdup & _ & Hstored & _ & _ & Hafter).
    { right. vm_compute. discriminate. }
    split; [exact Hcount |]. split; [exact (Hdup eq_refl) |].
    split; [exact Hstored |].
    apply (Hafter None afterPass). vm_compute. reflexivity.
Defined.

Lemma dueInFlight_keyed : keyedOnPacketID dueInFlight.
Proof.
  intros key tk H. unfold dueInFlight in H.
  rewrite !lookup_insert_Some, lookup_empty in H.
  destruct H as [[<- <-] | [_ [[<- <-] | [_ H]]]];
    [reflexivity | reflexivity | discriminate].
Qed.

Lemma dueInFlight_order : rangeOrder [1; 3] dueInFlight.
Proof.
  split.
  - compute_done.
  - intros key. unfold dueInFlight. split.
    + intros Hin. apply elem_of_cons in Hin as [-> | Hin]; [eexists; reflexivity |].
      apply elem_of_cons in Hin as [-> | Hin]; [eexists; reflexivity |].
      apply elem_of_nil in Hin. contradiction.
    + intros [tk H].
      rewrite !lookup_insert_Some, lookup_empty in H.
      destruct H as [[<- _] | [_ [[<- _] | [_ H]]]];
        [set_solver | set_solver | discriminate].
Qed.

(** C7 as stated fails when an earlier write of the pass fails. On the
    stopped session every write fails: the forced pass in the order 1, 3
    ends at packet 1 with the error of its write, and packet 3, which has
    resends left and is due in a forced pass, has not been resent: it is
    in the table as it was, with no resend counted and DUP clear, and no
    [Set] for it has been made. *)
Lemma ResendInflight_abort_skips_record :
  keyedOnPacketID (InFlight stoppedDue)
  /\ rangeOrder [1; 3] (InFlight stoppedDue)
  /\ InFlight stoppedDue !! 3 = Some (publishInFlight 3 100 0)
  /\ resends (publishInFlight 3 100 0) < maxResends
  /\ ResendInflight (codec := plainCodec) [1; 3] true (100 * Second)
       stoppedDue
     = Returns (Some ErrConnectionClosed) afterDueAbort
  /\ InFlight afterDueAbort !! 3 = Some (publishInFlight 3 100 0)
  /\ InFlight afterDueAbort !! 3
     <> Some (resent 100 (publishInFlight 3 100 0))
  /\ resends (publishInFlight 3 100 0) = 0
  /\ Dup (PFixedHeader (Packet (publishInFlight 3 100 0))) = false
  /\ InFlightSet 3 (resent 100 (publishInFlight 3 100 0)) ∉ trace afterDueAbort.
Proof.
  split; [exact dueInFlight_keyed |].
  split; [exact dueInFlight_order |].
  split; [reflexivity |].
  split; [vm_compute; reflexivity |].
  split; [vm_compute; reflexivity |].
  split; [reflexivity |].
  split; [vm_compute; discriminate |].
  split; [reflexivity |]. split; [reflexivity |].
  vm_compute. intros H. apply elem_of_cons in H as [H | H]; [discriminate |].
  apply elem_of_nil in H. exact H.
Qed.

(** C8, as amended, on the running session. *)
Lemma ResendInflight_pass_witness :
  keyedOnPacketID (InFlight runningSession)
  /\ rangeOrder [1; 2] (InFlight runningSession)
  /\ (false = true \/ countsFromZero (InFlight runningSession))
  /\ ∃ e cl',
       ResendInflight (codec := plainCodec) [1; 2] false (100 * Second)
         runningSession = Returns e cl'
       /\ (∀ key tk', InFlight cl' !! key = Some tk' ->
             ∃ tk, InFlight runningSession !! key = Some tk
                   /\ resends tk <= resends tk')
       /\ (e = None ->
           ∀ key tk, InFlight runningSession !! key = Some tk ->
             maxResends <= resends tk -> InFlight cl' !! key = None)
       /\ ((∀ key tk, InFlight runningSession !! key = Some tk ->
              resends tk <= maxResends) ->
           ∀ key tk', InFlight cl' !! key = Some tk' -> resends tk' <= maxResends).
Proof.
  split; [exact twoInFlight_keyed |].
  split; [exact twoInFlight_order |].
  split; [right; exact twoInFlight_counts |].
  apply (ResendInflight_pass (codec := plainCodec) [1; 2] false (100 * Second)
           runningSession twoInFlight_keyed twoInFlight_order
           (or_intror twoInFlight_counts)).
Defined.

(** C8 as stated fails when a write fails. On the stopped session every
    write fails: the forced pass in the order 1, 2 ends at packet 1, and
    packet 2, which had used up its resends before the pass, is still in
    the table after it. *)
Lemma ResendInflight_abort_keeps_record :
  rangeOrder [1; 2] (InFlight stoppedSession)
  /\ keyedOnPacketID (InFlight stoppedSession)
  /\ InFlight stoppedSession !! 2 = Some (publishInFlight 2 100 6)
  /\ maxResends <= resends (publishInFlight 2 100 6)
  /\ ResendInflight (codec := plainCodec) [1; 2] true (100 * Second)
       stoppedSession
     = Returns (Some ErrConnectionClosed) afterAbort
  /\ InFlight afterAbort !! 2 = Some (publishInFlight 2 100 6)
  /\ InFlight afterAbort !! 2 <> None.
Proof.
  split; [exact twoInFlight_order |].
  split; [exact twoInFlight_keyed |].
  split; [reflexivity |].
  split; [vm_compute; discriminate |].
  split; [vm_compute; reflexivity |].
  split; [reflexivity | discriminate].
Qed.


(** * Further properties of the package *)

(** ** The registry *)

(** X1. After any sequence of [Add]s, [Get id] returns the session added
    last under that id, and what the registry held before when none of
    them has the id. *)
Theorem Add_Get_last (vals : list Client) (cl : Clients) (id : string) :
  Get id (foldl (fun acc val => Add val acc) cl vals)
  = match last (filter (fun val => ID val = id) vals) with
    | Some val => (Some val, true)
    | None => Get id cl
    end.
Proof.
  induction vals as [| val vals IH] using rev_ind; [reflexivity |].
  rewrite foldl_app, filter_app, filter_cons, filter_nil. cbn [foldl].
  destruct (decide (ID val = id)) as [<- | Hne].
  - rewrite last_snoc. unfold Get, Add. cbn. rewrite lookup_insert_eq. reflexivity.
  - rewrite app_nil_r, <- IH. unfold Get, Add. cbn.
    rewrite lookup_insert_ne by exact Hne. reflexivity.
Qed.

(** X2. [Delete] removes the id and nothing else, and deleting an id the
    registry does not hold leaves the registry as it was. *)
Theorem Delete_Get (id id' : string) (cl : Clients) :
  Get id' (Delete id cl)
  = (if decide (id' = id) then (None, false) else Get id' cl)
  /\ Delete id (Delete id cl) = Delete id cl
  /\ (snd (Get id cl) = false -> Delete id cl = cl).
Proof.
  split; [| split].
  - unfold Get, Delete. cbn. destruct (decide (id' = id)) as [-> | Hne].
    + rewrite lookup_delete_eq. reflexivity.
    + rewrite lookup_delete_ne by congruence. reflexivity.
  - unfold Delete. cbn. f_equal. apply delete_delete_eq.
  - unfold Get. destruct (internal cl !! id) as [v |] eqn:Hid; cbn; [discriminate |].
    intros _. destruct cl as [m]. unfold Delete. cbn in *. f_equal.
    apply delete_id. exact Hid.
Qed.

(** X3. [Len] counts the ids: an [Add] under a new id adds one and an
    [Add] under a known id none; a [Delete] of a known id takes one away
    and a [Delete] of an unknown id none. *)
Theorem Len_Add_Delete (val : Client) (id : string) (cl : Clients) :
  Len (Add val cl) = (if snd (Get (ID val) cl) then Len cl else Len cl + 1)
  /\ Len (Delete id cl) = (if snd (Get id cl) then Len cl - 1 else Len cl).
Proof.
  unfold Len, Add, Delete, Get. cbn. split.
  - destruct (internal cl !! ID val) as [v |] eqn:Hid; cbn.
    + rewrite <- (insert_delete_id (internal cl) (ID val) v Hid) at 2.
      rewrite <- insert_delete_eq.
      rewrite !map_size_insert_None by apply lookup_delete_eq. reflexivity.
    + rewrite map_size_insert_None by exact Hid. lia.
  - destruct (internal cl !! id) as [v |] eqn:Hid; cbn.
    + rewrite <- (insert_delete_id (internal cl) id v Hid) at 2.
      rewrite map_size_insert_None by apply lookup_delete_eq. lia.
    + rewrite delete_id by exact Hid. reflexivity.
Qed.

(** X4. [GetByListener] never returns more sessions than the registry
    holds, so the capacity [cl.Len()] it allocates is enough; on an empty
    registry it returns none. *)
Theorem GetByListener_length (id : string) (cl : Clients) :
  Z.of_nat (length (GetByListener id cl)) <= Len cl
  /\ GetByListener id New = [].
Proof.
  split.
  - rewrite GetByListener_filter. unfold Len.
    pose proof (List.filter_length_le (live id) (snd <$> map_to_list (internal cl))) as H.
    rewrite length_fmap, length_map_to_list in H. lia.
  - unfold GetByListener, New. cbn. rewrite map_to_list_empty. reflexivity.
Qed.

(** X5. A session that has just been added is returned for its own
    listener exactly when its done flag is 0. *)
Theorem GetByListener_Add (val : Client) (cl : Clients) :
  val ∈ GetByListener (Listener val) (Add val cl) <-> done (state val) = 0.
Proof.
  rewrite GetByListener_filter, list_elem_of_In, filter_In, live_spec.
  rewrite <- list_elem_of_In, list_elem_of_fmap. split.
  - intros [_ [_ Hd]]. exact Hd.
  - intros Hd. split; [| split; [reflexivity | exact Hd]].
    exists (ID val, val). split; [reflexivity |].
    apply elem_of_map_to_list. unfold Add. cbn. apply lookup_insert_eq.
Qed.

(** ** The in-flight table *)

(** X6. [Set] then [Get] returns the message stored last under the key;
    [Delete] then [Get] finds nothing; the other keys are not touched. *)
Theorem InFlight_Set_Delete_Get (key key' : Z) (m : InFlightMessage)
    (cl : Client) :
  InFlight_Get key' (InFlight_Set key m cl)
  = (if decide (key' = key) then (Some m, true) else InFlight_Get key' cl)
  /\ InFlight_Get key' (InFlight_Delete key cl)
     = (if decide (key' = key) then (None, false) else InFlight_Get key' cl).
Proof.
  unfold InFlight_Get, InFlight_Set, InFlight_Delete. cbn.
  split; destruct (decide (key' = key)) as [-> | Hne].
  - rewrite lookup_insert_eq. reflexivity.
  - rewrite lookup_insert_ne by congruence. reflexivity.
  - rewrite lookup_delete_eq. reflexivity.
  - rewrite lookup_delete_ne by congruence. reflexivity.
Qed.

(** ** Subscription notes *)

(** X7. The note made last for a filter is the one kept; forgetting a
    filter removes its note and no other; forgetting a filter that was
    never noted leaves the session as it was, so that noting a new
    filter and forgetting it again restores the subscriptions. *)
Theorem Note_Forget (filter filter' : string) (qos qos' : Z) (cl : Client) :
  Subscriptions (NoteSubscription filter qos' (NoteSubscription filter qos cl))
    !! filter' = (if decide (filter' = filter) then Some qos'
                  else Subscriptions cl !! filter')
  /\ Subscriptions (ForgetSubscription filter cl) !! filter'
     = (if decide (filter' = filter) then None else Subscriptions cl !! filter')
  /\ (Subscriptions cl !! filter = None ->
      ForgetSubscription filter cl = cl
      /\ ForgetSubscription filter (NoteSubscription filter qos cl) = cl).
Proof.
  unfold NoteSubscription, ForgetSubscription, setSubscriptions. cbn.
  split; [| split].
  - destruct (decide (filter' = filter)) as [-> | Hne].
    + apply lookup_insert_eq.
    + rewrite !lookup_insert_ne by congruence. reflexivity.
  - destruct (decide (filter' = filter)) as [-> | Hne].
    + apply lookup_delete_eq.
    + apply lookup_delete_ne. congruence.
  - intros Hf. destruct cl. cbn in *. split; f_equal.
    + apply delete_id. exact Hf.
    + rewrite delete_insert_eq. apply delete_id. exact Hf.
Qed.

(** ** Packet ids, from any state of the counter *)

(** X8. Whatever packet id the counter holds (0 at the start, then 1 to
    65535), the next call returns an id from 1 to 65535, the successor of
    the counter or 1 after 65535, and leaves it in the counter: the
    counter never leaves that range and 0 is never handed out. *)
Theorem NextPacketID_in_range (cl : Client) :
  0 <= packetID cl <= 65535 ->
  let '(i, cl') := NextPacketID cl in
  1 <= i <= 65535
  /\ i = (if packetID cl =? 65535 then 1 else packetID cl + 1)
  /\ packetID cl' = i
  /\ cl' = setPacketID i cl.
Proof.
  intros Hp. unfold NextPacketID.
  destruct (Z.eqb_spec (packetID cl) 65535) as [E | N1]; cbn.
  - split; [lia |]. repeat split.
  - destruct (Z.eqb_spec (packetID cl) 0) as [E | N0]; cbn.
    + rewrite E. split; [lia |]. repeat split.
    + rewrite wrap32_small by lia. split; [lia |]. repeat split.
Qed.

(** X9. In a run of sequential calls, two calls fewer than 65535 calls
    apart return different ids, and two calls exactly 65535 apart return
    the same id: ids are reused only after a full cycle. *)
Theorem NextPacketID_window (n i j : nat) (cl : Client) :
  0 <= packetID cl <= 65535 ->
  (i < j < n)%nat ->
  (Z.of_nat j - Z.of_nat i < 65535 ->
   fst (NextPacketIDs n cl) !! i <> fst (NextPacketIDs n cl) !! j)
  /\ (Z.of_nat j - Z.of_nat i = 65535 ->
      fst (NextPacketIDs n cl) !! i = fst (NextPacketIDs n cl) !! j).
Proof.
  intros Hp Hij.
  rewrite !NextPacketIDs_nth by (assumption || lia).
  pose proof (cyclePos_range (packetID cl)) as Hc.
  set (c := cyclePos (packetID cl)) in *.
  split.
  - intros Hnear H. injection H as H.
    assert (Hmod : (c + Z.of_nat i) mod 65535 = (c + Z.of_nat j) mod 65535) by lia.
    assert (Hd : (c + Z.of_nat j) = (c + Z.of_nat i) + (Z.of_nat j - Z.of_nat i)) by lia.
    pose proof (Z.div_mod (c + Z.of_nat i) 65535 ltac:(lia)) as Hi.
    pose proof (Z.div_mod (c + Z.of_nat j) 65535 ltac:(lia)) as Hj.
    assert (Hq : 65535 * ((c + Z.of_nat j) / 65535 - (c + Z.of_nat i) / 65535)
                 = Z.of_nat j - Z.of_nat i) by lia.
    assert (0 < (c + Z.of_nat j) / 65535 - (c + Z.of_nat i) / 65535) by nia.
    nia.
  - intros Hfar. f_equal. f_equal.
    replace (c + Z.of_nat j) with (c + Z.of_nat i + 1 * 65535) by lia.
    rewrite Z.mod_add by lia. reflexivity.
Qed.

(** ** The deadline, below the wrap of the sum *)

(** The deadline of a keepalive that does not wrap. *)
Lemma refreshDeadline_small (now k : Z) (cl : Client) :
  0 <= k <= 43690 ->
  let expiry := if k =? 0 then None else Some (now + (k + k / 2) * Second) in
  refreshDeadline now k cl
  = match conn cl with
    | Some c => emit (ConnSetDeadline expiry)
                  (setConn (Some {| deadline := expiry |}) cl)
    | None => cl
    end.
Proof.
  intros Hk expiry. subst expiry. unfold refreshDeadline.
  destruct (conn cl) as [c |]; [| reflexivity].
  destruct (Z.eqb_spec k 0) as [-> | Hne].
  - reflexivity.
  - destruct (Z.ltb_spec 0 k) as [_ | Hle]; [| lia].
    assert (0 <= k / 2 <= 21845)
      by (split; [apply Z.div_pos; lia | apply Z.div_le_upper_bound; lia]).
    rewrite wrap16_small by lia.
    rewrite mul64_seconds by lia. reflexivity.
Qed.

(** X10. For a keepalive of 1 to 43690 seconds a session with a connection
    gets the expiry [now + keepalive + keepalive/2] (the half rounded
    down); a keepalive of 0 sets the zero time, which takes an earlier
    deadline away; a session without a connection is not changed at all.
    Nothing but the connection is written, one [SetDeadline] call is
    made. *)
Theorem refreshDeadline_keepalive (now k : Z) (cl : Client) :
  0 <= k <= 43690 ->
  let expiry := if k =? 0 then None else Some (now + (k + k / 2) * Second) in
  refreshDeadline now k cl
  = match conn cl with
    | Some c => emit (ConnSetDeadline expiry)
                  (setConn (Some {| deadline := expiry |}) cl)
    | None => cl
    end.
Proof. exact (refreshDeadline_small now k cl). Qed.

(** ** Identification *)

(** X11. [Identify] replaces the deadline of the connection by the one of
    the packet's keepalive: [now] plus one and a half keepalives up to
    43690 seconds, none for a keepalive of 0. So the deadline of 15
    seconds that [NewClient] set is gone once a CONNECT with keepalive 0
    has been identified. *)
Theorem Identify_deadline (lid : string) (pk : connect.Packet) (fresh : string)
    (now : Z) (c : Conn) (cl : Client) :
  conn cl = Some c ->
  0 <= connect.Keepalive pk <= 43690 ->
  conn (Identify lid pk fresh now cl)
  = Some {| deadline :=
              if connect.Keepalive pk =? 0 then None
              else Some (now + (connect.Keepalive pk + connect.Keepalive pk / 2)
                               * Second) |}.
Proof.
  intros Hc Hk. unfold Identify. cbv zeta.
  rewrite refreshDeadline_small by exact Hk.
  cbn. rewrite Hc. reflexivity.
Qed.

(** X12. The will is taken from the CONNECT packet when its will flag is
    set, and is left as it was when the flag is clear: a session that is
    identified a second time, by a packet without a will, keeps the will
    of the first packet. *)
Theorem Identify_will (lid lid' : string) (pk pk' : connect.Packet)
    (fresh fresh' : string) (now now' : Z) (cl : Client) :
  will (Identify lid pk fresh now cl)
  = (if connect.WillFlag pk
     then {| Topic := connect.WillTopic pk; Message := connect.WillMessage pk;
             WillQos := connect.WillQos pk; WillRetain := connect.WillRetain pk |}
     else will cl)
  /\ (connect.WillFlag pk' = false ->
      will (Identify lid' pk' fresh' now' (Identify lid pk fresh now cl))
      = will (Identify lid pk fresh now cl)).
Proof.
  assert (Hwill : ∀ l p f n s,
            will (Identify l p f n s)
            = (if connect.WillFlag p
               then {| Topic := connect.WillTopic p; Message := connect.WillMessage p;
                       WillQos := connect.WillQos p;
                       WillRetain := connect.WillRetain p |}
               else will s)).
  { intros l p f n s. unfold Identify, refreshDeadline. cbn.
    destruct (conn s); reflexivity. }
  split; [apply Hwill |].
  intros Hflag. rewrite (Hwill lid' pk'), Hflag. reflexivity.
Qed.

(** ** The fixed header, in general *)

Lemma Read_short (n : Z) (rd : circ.Reader) :
  Z.of_nat (length (circ.unread rd)) < n ->
  circ.Read n rd = ([], Some ErrChannel).
Proof.
  intros Hn. unfold circ.Read.
  destruct (Z.leb_spec n (Z.of_nat (length (circ.unread rd)))); [lia | reflexivity].
Qed.

Section FixedHeaderInGeneral.

Context {codec : Codec}.

Lemma lengthLoop_short (left : nat) (rd : circ.Reader) (buf : list byte)
    (i n : Z) :
  Z.of_nat (length (circ.unread rd)) < n ->
  lengthLoop (S left) rd buf i n = LoopReturn ErrChannel.
Proof. intros Hn. cbn [lengthLoop]. rewrite Read_short by exact Hn. reflexivity. Qed.

(** One turn of the loop on a reader whose unread bytes [Hu] spells out:
    it reads [p[i]] out of [n] bytes and finds [b]. *)
Ltac loopTurn Hu i n b :=
  rewrite (lengthLoop_turn _ _ _ i n b)
    by (rewrite Hu; first [reflexivity | cbn [length]; lia]).

(** The length loop never indexes out of range, and leaves by [break]
    only with a field of one to three bytes in hand. *)
Lemma lengthLoop_ends (rd : circ.Reader) :
  match lengthLoop 4 rd [] 1 2 with
  | LoopPanic => False
  | LoopReturn _ => True
  | LoopExit buf n =>
      ∃ b0 conts last rest,
        circ.unread rd = b0 :: conts ++ last :: rest
        /\ lengthField conts last
        /\ (length conts <= 2)%nat
        /\ buf = conts ++ [last]
        /\ n = 2 + Z.of_nat (length conts)
  end.
Proof.
  destruct (circ.unread rd) as [| b0 [| b1 t]] eqn:Hu;
    try (rewrite lengthLoop_short by (rewrite Hu; cbn [length]; lia); exact I).
  loopTurn Hu 1 2 b1.
  destruct (Z.ltb_spec (b2z b1) 128) as [H1 | H1].
  { exists b0, [], b1, t. repeat split; auto. }
  change (1 + 1 =? 4) with false. cbv iota.
  destruct t as [| b2 t];
    try (rewrite lengthLoop_short by (rewrite Hu; cbn [length]; lia); exact I).
  loopTurn Hu (1 + 1) (2 + 1) b2.
  destruct (Z.ltb_spec (b2z b2) 128) as [H2 | H2].
  { exists b0, [b1], b2, t. repeat split; auto. }
  change (1 + 1 + 1 =? 4) with false. cbv iota.
  destruct t as [| b3 t];
    try (rewrite lengthLoop_short by (rewrite Hu; cbn [length]; lia); exact I).
  loopTurn Hu (1 + 1 + 1) (2 + 1 + 1) b3.
  destruct (Z.ltb_spec (b2z b3) 128) as [H3 | H3].
  { exists b0, [b1; b2], b3, t. repeat split; auto. }
  exact I.
Qed.

(** What [ReadFixedHeader] may end with. *)
Lemma ReadFixedHeader_cases (fh : FixedHeader) (cl : Client) :
  match ReadFixedHeader fh cl with
  | Panics => False
  | Returns (_, Some _) cl' => cl' = cl
  | Returns (fh', None) cl' =>
      ∃ b0 conts last rest,
        circ.unread (r cl) = b0 :: conts ++ last :: rest
        /\ lengthField conts last
        /\ (length conts <= 2)%nat
        /\ Remaining fh' = varintValue (conts ++ [last])
        /\ 0 <= Remaining fh' <= 2097151
        /\ circ.unread (r cl') = rest
        /\ cl' = emit (ReaderCommitTail (2 + Z.of_nat (length conts)))
                   (setReader (circ.CommitTail (2 + Z.of_nat (length conts)) (r cl)) cl)
  end.
Proof.
  destruct (circ.unread (r cl)) as [| b0 t] eqn:Hu.
  - unfold ReadFixedHeader. rewrite Read_short by (rewrite Hu; cbn [length]; lia).
    reflexivity.
  - destruct (Decode fh b0) as [fh1 [e |]] eqn:Hdec.
    + unfold ReadFixedHeader.
      rewrite Read_enough by (rewrite Hu; cbn [length]; lia).
      rewrite Hu. change (take (Z.to_nat 1) (b0 :: t) !! 0%nat) with (Some b0).
      cbv beta iota. rewrite Hdec. reflexivity.
    + rewrite (ReadFixedHeader_start fh fh1 cl b0 t Hu Hdec).
      pose proof (lengthLoop_ends (r cl)) as Hloop.
      destruct (lengthLoop 4 (r cl) [] 1 2) as [buf n | e |]; [| reflexivity | exact Hloop].
      destruct Hloop as (b0' & conts & last & rest & Hu' & Hf & Hlen & -> & ->).
      rewrite (Uvarint_field conts last Hf ltac:(lia)).
      pose proof (varintValue_range (conts ++ [last])) as Hrange.
      rewrite length_app in Hrange. cbn [length] in Hrange.
      assert (128 ^ Z.of_nat (length conts + 1) <= 128 ^ 3)
        by (apply Z.pow_le_mono_r; lia).
      rewrite toInt64_small by lia.
      rewrite Hu in Hu'.
      exists b0', conts, last, rest.
      split; [exact Hu' |]. split; [exact Hf |]. split; [exact Hlen |].
      split; [reflexivity |]. split; [cbn; lia |].
      split; [| reflexivity].
      cbn. rewrite Hu, Hu'.
      replace (Z.to_nat (2 + Z.of_nat (length conts))) with (S (length conts + 1)) by lia.
      cbn [drop]. change (last :: rest) with ([last] ++ rest).
      rewrite app_assoc. apply drop_app_length'. rewrite length_app. reflexivity.
Qed.

(** X13. [ReadFixedHeader] never indexes out of range. When it returns an
    error the session is as it was: nothing has been committed. When it
    returns no error the reader held a control byte and a length field of
    one to three bytes; [Remaining] is the value of the field, at most
    2097151, and exactly the control byte and the field have been
    committed. *)
Theorem ReadFixedHeader_outcome (fh : FixedHeader) (cl : Client) :
  match ReadFixedHeader fh cl with
  | Panics => False
  | Returns (_, Some _) cl' => cl' = cl
  | Returns (fh', None) cl' =>
      ∃ b0 conts last rest,
        circ.unread (r cl) = b0 :: conts ++ last :: rest
        /\ lengthField conts last
        /\ (length conts <= 2)%nat
        /\ Remaining fh' = varintValue (conts ++ [last])
        /\ 0 <= Remaining fh' <= 2097151
        /\ circ.unread (r cl') = rest
        /\ cl' = emit (ReaderCommitTail (2 + Z.of_nat (length conts)))
                   (setReader (circ.CommitTail (2 + Z.of_nat (length conts)) (r cl)) cl)
  end.
Proof. exact (ReadFixedHeader_cases fh cl). Qed.


(** A length field of at most three bytes is read, and the reader is left behind it. *)
Lemma ReadFixedHeader_reads_field (fh fh' : FixedHeader) (cl : Client)
    (b0 last : byte) (conts rest : list byte) :
  circ.unread (r cl) = b0 :: conts ++ last :: rest ->
  Decode fh b0 = (fh', None) ->
  lengthField conts last -> (length conts <= 2)%nat ->
  ∃ cl', ReadFixedHeader fh cl
         = Returns (setRemaining (varintValue (conts ++ [last])) fh', None) cl'
         /\ circ.unread (r cl') = rest
         /\ trace cl' = trace cl ++ [ReaderCommitTail (2 + Z.of_nat (length conts))].
Proof.
  intros Hu Hdec Hf Hlen.
  eexists. split; [apply (ReadFixedHeader_accepts fh fh' cl b0 last conts rest); assumption |].
  split; [| reflexivity].
  cbn. rewrite Hu.
  replace (Z.to_nat (2 + Z.of_nat (length conts))) with (S (length conts + 1)) by lia.
  cbn [drop]. change (last :: rest) with ([last] ++ rest).
  rewrite app_assoc. apply drop_app_length'. rewrite length_app. reflexivity.
Qed.

(** X14. A header whose length field has one, two or three bytes is read:
    [Remaining] becomes the value the field denotes, least significant
    seven bits first, and the reader stands right behind the field. *)
Theorem ReadFixedHeader_field (fh fh' : FixedHeader) (cl : Client)
    (b0 last : byte) (conts rest : list byte) :
  circ.unread (r cl) = b0 :: conts ++ last :: rest ->
  Decode fh b0 = (fh', None) ->
  lengthField conts last -> (length conts <= 2)%nat ->
  ∃ cl', ReadFixedHeader fh cl
         = Returns (setRemaining (varintValue (conts ++ [last])) fh', None) cl'
         /\ circ.unread (r cl') = rest
         /\ trace cl' = trace cl ++ [ReaderCommitTail (2 + Z.of_nat (length conts))].
Proof. exact (ReadFixedHeader_reads_field fh fh' cl b0 last conts rest). Qed.

End FixedHeaderInGeneral.

(** ** Reading a packet, in general *)

Section PacketsInGeneral.

Context {codec : Codec}.

(** X15. When the reader cannot deliver the [Remaining] bytes,
    [ReadPacket] returns the reader's error with the bare header as
    packet: no decoder runs and nothing is committed. *)
Theorem ReadPacket_short (fh : FixedHeader) (cl : Client) :
  Z.of_nat (length (circ.unread (r cl))) < Remaining fh ->
  ReadPacket fh cl = ((setFixedHeader fh zeroPacket, Some ErrChannel), cl).
Proof.
  intros Hshort. unfold ReadPacket. cbn [PFixedHeader setFixedHeader].
  destruct (Z.eqb_spec (Remaining fh) 0) as [E | _]; [lia |].
  rewrite Read_short by exact Hshort. reflexivity.
Qed.

(** What [ReadPacket] returns and commits when the remainder is buffered. *)
Lemma ReadPacket_cases (fh : FixedHeader) (cl : Client) :
  0 < Remaining fh <= Z.of_nat (length (circ.unread (r cl))) ->
  let pk0 := setFixedHeader fh zeroPacket in
  let px := take (Z.to_nat (Remaining fh)) (circ.unread (r cl)) in
  let '((pk, err), cl') := ReadPacket fh cl in
  circ.unread (r cl')
  = drop (Z.to_nat (Remaining (PFixedHeader pk))) (circ.unread (r cl))
  /\ match kindOf (Type_ fh) with
     | None => pk = pk0 /\ err = Some (ErrNoValidPacket (Type_ fh))
     | Some k =>
         if decoded k then (pk, err) = DecodeBody k pk0 px
         else pk = pk0 /\ err = None
     end.
Proof.
  intros Hlen pk0 px. unfold ReadPacket. cbn [PFixedHeader setFixedHeader].
  destruct (Z.eqb_spec (Remaining fh) 0) as [E | _]; [lia |].
  rewrite Read_enough by lia. cbn [app].
  fold pk0. fold px.
  destruct (kindOf (Type_ fh)) as [k |]; [| split; [reflexivity | split; reflexivity]].
  destruct k; cbn [decoded];
    try (destruct (DecodeBody _ pk0 px) as [pk err]; split; reflexivity);
    (split; [reflexivity | split; reflexivity]).
Qed.

(** X16. When the reader holds the [Remaining] bytes, [ReadPacket] commits
    them whatever the [switch] does. A PINGREQ, PINGRESP or DISCONNECT
    with a remainder has it skipped unread and yields no error; an unknown
    type yields the no-valid-packet error; for the other kinds the packet
    and the error are those of the decoder, run on the remainder, and an
    error of the decoder does not keep the bytes from being committed
    (by the [Remaining] of the packet the decoder leaves). *)
Theorem ReadPacket_commits (fh : FixedHeader) (cl : Client) :
  0 < Remaining fh <= Z.of_nat (length (circ.unread (r cl))) ->
  let pk0 := setFixedHeader fh zeroPacket in
  let px := take (Z.to_nat (Remaining fh)) (circ.unread (r cl)) in
  let '((pk, err), cl') := ReadPacket fh cl in
  circ.unread (r cl')
  = drop (Z.to_nat (Remaining (PFixedHeader pk))) (circ.unread (r cl))
  /\ match kindOf (Type_ fh) with
     | None => pk = pk0 /\ err = Some (ErrNoValidPacket (Type_ fh))
     | Some k =>
         if decoded k then (pk, err) = DecodeBody k pk0 px
         else pk = pk0 /\ err = None
     end.
Proof. exact (ReadPacket_cases fh cl). Qed.

(** X17. A whole frame is consumed, no more and no less: with a control
    byte that decodes, a length field of one to three bytes and as many
    bytes of remainder as the field says before the reader, and decoders
    that leave [Remaining] alone, [ReadFixedHeader] followed by
    [ReadPacket] leaves the reader at the first byte behind the frame,
    also when the packet does not decode or its type is unknown. *)
Theorem frame_consumed (fh fh' : FixedHeader) (cl : Client) (b0 last : byte)
    (conts payload rest : list byte) :
  circ.unread (r cl) = b0 :: conts ++ last :: payload ++ rest ->
  Decode fh b0 = (fh', None) ->
  lengthField conts last -> (length conts <= 2)%nat ->
  Z.of_nat (length payload) = varintValue (conts ++ [last]) ->
  (∀ k pk px, Remaining (PFixedHeader (fst (DecodeBody k pk px)))
              = Remaining (PFixedHeader pk)) ->
  ∃ cl1, ReadFixedHeader fh cl
         = Returns (setRemaining (Z.of_nat (length payload)) fh', None) cl1
         /\ circ.unread (r (snd (ReadPacket
                                   (setRemaining (Z.of_nat (length payload)) fh')
                                   cl1))) = rest.
Proof.
  intros Hu Hdec Hf Hlen Hpay Hkeep.
  destruct (ReadFixedHeader_reads_field fh fh' cl b0 last conts (payload ++ rest)
              Hu Hdec Hf Hlen) as (cl1 & Hread & Hu1 & _).
  exists cl1. rewrite Hpay. split; [exact Hread |].
  rewrite <- Hpay.
  set (fh1 := setRemaining (Z.of_nat (length payload)) fh').
  destruct payload as [| p0 payload].
  - unfold ReadPacket. cbn. exact Hu1.
  - assert (Hrem : 0 < Remaining fh1 <= Z.of_nat (length (circ.unread (r cl1)))).
    { rewrite Hu1, length_app. cbn [Remaining fh1 setRemaining length]. lia. }
    pose proof (ReadPacket_cases fh1 cl1 Hrem) as Hcommit.
    cbv zeta in Hcommit.
    destruct (ReadPacket fh1 cl1) as [[pk err] cl2]. cbn [snd].
    destruct Hcommit as [Hunread Hkind]. rewrite Hunread, Hu1.
    assert (Hsame : Remaining (PFixedHeader pk) = Z.of_nat (length (p0 :: payload))).
    { destruct (kindOf (Type_ fh1)) as [k |].
      - destruct (decoded k).
        + pose proof (Hkeep k (setFixedHeader fh1 zeroPacket)
                        (take (Z.to_nat (Remaining fh1)) (circ.unread (r cl1)))) as Hk.
          rewrite <- Hkind in Hk. exact Hk.
        + destruct Hkind as [-> _]. reflexivity.
      - destruct Hkind as [-> _]. reflexivity. }
    rewrite Hsame, Nat2Z.id. apply drop_app_length.
Qed.

(** ** Writing a packet, in general *)

(** A write that succeeds. *)
Lemma WritePacket_success (now : Z) (pk : packets.Packet) (cl : Client)
    (k : Kind) (buf : list byte) :
  done (state cl) <> 1 ->
  kindOf (Type_ (PFixedHeader pk)) = Some k ->
  EncodeBody k pk = (buf, None) ->
  circ.stopped (w cl) = false ->
  let '((n, err), cl') := WritePacket now pk cl in
  n = Z.of_nat (length buf) /\ err = None
  /\ circ.pushed (w cl') = circ.pushed (w cl) ++ buf
  /\ circ.stopped (w cl') = false
  /\ conn cl' = conn (refreshDeadline now (keepalive cl) cl)
  /\ WriterWrite buf ∈ trace cl'.
Proof.
  intros Hd Hk Henc Hw. unfold WritePacket.
  destruct (Z.eqb_spec (done (state cl)) 1) as [E | _]; [contradiction |].
  rewrite Hk, Henc. cbn. unfold circ.Write. cbn. rewrite Hw. cbn.
  unfold refreshDeadline. cbn.
  destruct (conn cl) as [c |]; cbn; repeat (split; [reflexivity |]);
    rewrite !elem_of_app; set_solver.
Qed.

(** X18. On a session that is not done, a packet of a known type whose
    encoder returns no error is pushed into a writer that has not been
    stopped: [WritePacket] returns the number of encoded bytes and no
    error, the writer holds the bytes behind what it held before, and the
    deadline has been refreshed from the session's keepalive. *)
Theorem WritePacket_pushes (now : Z) (pk : packets.Packet) (cl : Client)
    (k : Kind) (buf : list byte) :
  done (state cl) <> 1 ->
  kindOf (Type_ (PFixedHeader pk)) = Some k ->
  EncodeBody k pk = (buf, None) ->
  circ.stopped (w cl) = false ->
  let '((n, err), cl') := WritePacket now pk cl in
  n = Z.of_nat (length buf) /\ err = None
  /\ circ.pushed (w cl') = circ.pushed (w cl) ++ buf
  /\ circ.stopped (w cl') = false
  /\ conn cl' = conn (refreshDeadline now (keepalive cl) cl)
  /\ WriterWrite buf ∈ trace cl'.
Proof. exact (WritePacket_success now pk cl k buf). Qed.

(** An event is none of the events of a list spelled out. *)
Ltac notIn :=
  let H := fresh "Hin" in
  intros H;
  repeat (apply elem_of_cons in H; destruct H as [H | H]; [discriminate H |]);
  apply elem_of_nil in H; exact H.

(** X19. [WritePacket] never returns with the writer's lock held, and
    takes it at most once: either the session is done and nothing is
    traced, or the trace grows by a lock, then events that are neither
    lock nor unlock, then the unlock. *)
Theorem WritePacket_lock_released (now : Z) (pk : packets.Packet) (cl : Client) :
  let cl' := snd (WritePacket now pk cl) in
  (done (state cl) = 1 /\ trace cl' = trace cl)
  \/ (done (state cl) <> 1
      /\ ∃ mid, trace cl' = trace cl ++ WriterLock :: (mid ++ [WriterUnlock])
                /\ (WriterLock ∉ mid) /\ (WriterUnlock ∉ mid)).
Proof.
  cbv zeta. unfold WritePacket.
  destruct (Z.eqb_spec (done (state cl)) 1) as [E | Hd]; [left; split; [exact E | reflexivity] |].
  right. split; [exact Hd |].
  destruct (kindOf (Type_ (PFixedHeader pk))) as [k |].
  - destruct (EncodeBody k pk) as [buf [e |]]; cbn.
    + exists [CodecEncode (Type_ (PFixedHeader pk))].
      rewrite <- !app_assoc. split; [reflexivity | split; notIn].
    + destruct (circ.Write buf (w cl)) as [wr [n [e |]]]; cbn.
      * exists [CodecEncode (Type_ (PFixedHeader pk)); WriterWrite buf].
        rewrite <- !app_assoc. split; [reflexivity | split; notIn].
      * unfold refreshDeadline. cbn. destruct (conn cl) as [c |]; cbn.
        -- eexists [CodecEncode (Type_ (PFixedHeader pk)); WriterWrite buf;
                    ConnSetDeadline _].
           rewrite <- !app_assoc. split; [reflexivity | split; notIn].
        -- exists [CodecEncode (Type_ (PFixedHeader pk)); WriterWrite buf].
           rewrite <- !app_assoc. split; [reflexivity | split; notIn].
  - cbn. exists []. rewrite <- !app_assoc. split; [reflexivity | split; notIn].
Qed.

(** What [WritePacket] leaves alone. *)
Lemma WritePacket_frame (now : Z) (pk : packets.Packet) (cl : Client) :
  let '((n, err), cl') := WritePacket now pk cl in
  (err <> None -> w cl' = w cl /\ conn cl' = conn cl)
  /\ (done (state cl) <> 1 -> kindOf (Type_ (PFixedHeader pk)) = None ->
      n = 0 /\ err = Some (ErrNoValidPacket (Type_ (PFixedHeader pk))))
  /\ r cl' = r cl /\ ID cl' = ID cl /\ Listener cl' = Listener cl
  /\ Subscriptions cl' = Subscriptions cl /\ InFlight cl' = InFlight cl
  /\ packetID cl' = packetID cl /\ keepalive cl' = keepalive cl
  /\ state cl' = state cl.
Proof.
  unfold WritePacket.
  destruct (Z.eqb_spec (done (state cl)) 1) as [E | Hd].
  { split; [auto |]. split; [intros H; contradiction |]. repeat split. }
  destruct (kindOf (Type_ (PFixedHeader pk))) as [k |].
  - destruct (EncodeBody k pk) as [buf [e |]]; cbn.
    + split; [auto |]. split; [discriminate |]. repeat split.
    + unfold circ.Write. destruct (circ.stopped (w cl)) eqn:Hs; cbn.
      * split; [intros _; split; reflexivity |]. split; [discriminate |].
        repeat split.
      * split; [intros H; contradiction |]. split; [discriminate |].
        unfold refreshDeadline. cbn. destruct (conn cl); repeat split.
  - cbn. split; [auto |]. split; [auto |]. repeat split.
Qed.

(** X20. A [WritePacket] that returns an error has pushed nothing and has
    not refreshed the deadline: the writer and the connection are as they
    were. Whatever it returns, it leaves the reader, the identity, the
    subscriptions, the in-flight table, the packet-id counter, the
    keepalive and the state of the session alone. An unknown packet type
    is such an error. *)
Theorem WritePacket_failure (now : Z) (pk : packets.Packet) (cl : Client) :
  let '((n, err), cl') := WritePacket now pk cl in
  (err <> None -> w cl' = w cl /\ conn cl' = conn cl)
  /\ (done (state cl) <> 1 -> kindOf (Type_ (PFixedHeader pk)) = None ->
      n = 0 /\ err = Some (ErrNoValidPacket (Type_ (PFixedHeader pk))))
  /\ r cl' = r cl /\ ID cl' = ID cl /\ Listener cl' = Listener cl
  /\ Subscriptions cl' = Subscriptions cl /\ InFlight cl' = InFlight cl
  /\ packetID cl' = packetID cl /\ keepalive cl' = keepalive cl
  /\ state cl' = state cl.
Proof. exact (WritePacket_frame now pk cl). Qed.

End PacketsInGeneral.

(** ** A resend pass whose writes succeed *)

Section ResendCompletes.

Context {codec : Codec}.

(** A turn on a running session whose writer takes the packet. *)
Lemma resendBody_completes (force : bool) (now nt : Z) (tk : InFlightMessage)
    (cl : Client) :
  force = true \/ 0 <= resends tk ->
  done (state cl) <> 1 -> circ.stopped (w cl) = false ->
  writable nt tk ->
  ∃ cl1,
    resendBody force now nt tk cl = Returns None cl1
    /\ state cl1 = state cl /\ circ.stopped (w cl1) = false
    /\ match afterTurn force nt tk with
       | None => InFlight cl1 = delete (PacketID (Packet tk)) (InFlight cl)
       | Some tk' =>
           (tk' = tk /\ InFlight cl1 = InFlight cl)
           \/ InFlight cl1 = <[PacketID (Packet tk) := tk']> (InFlight cl)
       end.
Proof.
  intros Hsafe Hd Hw (k & Hk & Henc). unfold afterTurn.
  destruct (Z.leb_spec maxResends (resends tk)) as [Hge | Hlt].
  { rewrite resendBody_drop by exact Hge. eexists. repeat split; assumption. }
  assert (Hresend :
    ∃ cl1, (let tk' := resent nt tk in
            let cl2 := InFlight_Set (PacketID (Packet tk')) tk' cl in
            Returns (snd (fst (WritePacket now (Packet tk') cl2)))
              (snd (WritePacket now (Packet tk') cl2)))
           = Returns None cl1
           /\ state cl1 = state cl /\ circ.stopped (w cl1) = false
           /\ InFlight cl1 = <[PacketID (Packet tk) := resent nt tk]> (InFlight cl)).
  { cbv zeta.
    set (cl2 := InFlight_Set (PacketID (Packet (resent nt tk))) (resent nt tk) cl).
    destruct (EncodeBody k (Packet (resent nt tk))) as [buf e] eqn:Hbuf.
    cbn in Henc. subst e.
    pose proof (WritePacket_success now (Packet (resent nt tk)) cl2 k buf
                  Hd Hk Hbuf Hw) as Hpush.
    pose proof (WritePacket_frame now (Packet (resent nt tk)) cl2) as Hframe.
    destruct (WritePacket now (Packet (resent nt tk)) cl2) as [[n err] cl3].
    destruct Hpush as (_ & -> & _ & Hstop & _).
    destruct Hframe as (_ & _ & _ & _ & _ & _ & Hin & _ & _ & Hst).
    exists cl3. cbn [fst snd]. split; [reflexivity |].
    split; [exact Hst |]. split; [exact Hstop |].
    rewrite Hin. subst cl2. unfold InFlight_Set, emit, setInFlight.
    cbn [InFlight]. rewrite resent_PacketID. reflexivity. }
  destruct force; cbn [negb andb].
  - rewrite resendBody_resend by (auto; lia).
    destruct Hresend as (cl1 & -> & Hst & Hstop & Hin).
    exists cl1. split; [reflexivity |]. split; [exact Hst |].
    split; [exact Hstop | right; exact Hin].
  - destruct Hsafe as [Hf | Hpos]; [discriminate |].
    destruct (index_in_range resendBackoff (resends tk)) as [backoff Hi].
    { cbn. unfold maxResends in Hlt. lia. }
    rewrite Hi.
    destruct (Z.ltb_spec (Int.sub64 nt (Sent tk)) backoff) as [Hwait | Hdue].
    + rewrite (resendBody_skip now nt tk cl backoff) by assumption.
      exists cl. split; [reflexivity |]. split; [reflexivity |].
      split; [exact Hw | left; split; reflexivity].
    + rewrite resendBody_resend; [| exact Hlt | right; eauto].
      destruct Hresend as (cl1 & -> & Hst & Hstop & Hin).
      exists cl1. split; [reflexivity |]. split; [exact Hst |].
      split; [exact Hstop | right; exact Hin].
Qed.

(** The pass over [order], each key once, on such a session. *)
Lemma resendRange_completes (order : list Z) (force : bool) (now nt : Z)
    (cl : Client) :
  NoDup order ->
  done (state cl) <> 1 -> circ.stopped (w cl) = false ->
  (∀ key tk, key ∈ order -> InFlight cl !! key = Some tk ->
     PacketID (Packet tk) = key
     /\ (force = true \/ 0 <= resends tk)
     /\ writable nt tk) ->
  ∃ cl',
    resendRange order force now nt cl = Returns None cl'
    /\ state cl' = state cl /\ circ.stopped (w cl') = false
    /\ ∀ key, InFlight cl' !! key
              = if decide (key ∈ order)
                then InFlight cl !! key ≫= afterTurn force nt
                else InFlight cl !! key.
Proof.
  revert cl. induction order as [| k rest IH]; intros cl Hnodup Hd Hw Hall.
  - exists cl. split; [reflexivity |]. split; [reflexivity |]. split; [exact Hw |].
    intros key. destruct (decide (key ∈ [])) as [Hin | _]; [| reflexivity].
    apply elem_of_nil in Hin. contradiction.
  - apply NoDup_cons in Hnodup as [Hk_rest Hnodup].
    assert (Hstep : ∃ cl1,
              resendRange (k :: rest) force now nt cl
              = resendRange rest force now nt cl1
              /\ state cl1 = state cl /\ circ.stopped (w cl1) = false
              /\ InFlight cl1 !! k = InFlight cl !! k ≫= afterTurn force nt
              /\ ∀ key, key <> k -> InFlight cl1 !! key = InFlight cl !! key).
    { destruct (InFlight cl !! k) as [tk |] eqn:Hk.
      - destruct (Hall k tk ltac:(left) Hk) as (Hid & Hsafe & Hwr).
        destruct (resendBody_completes force now nt tk cl Hsafe Hd Hw Hwr)
          as (cl1 & Hbody & Hst & Hstop & Hafter).
        exists cl1. rewrite (resendRange_cons _ _ _ _ _ _ tk Hk), Hbody.
        split; [reflexivity |]. split; [exact Hst |]. split; [exact Hstop |].
        rewrite Hid in Hafter. cbn [mbind option_bind].
        destruct (afterTurn force nt tk) as [tk' |].
        + destruct Hafter as [[-> ->] | ->].
          * split; [exact Hk | reflexivity].
          * split; [apply lookup_insert_eq |].
            intros key Hne. apply lookup_insert_ne. congruence.
        + rewrite Hafter. split; [apply lookup_delete_eq |].
          intros key Hne. apply lookup_delete_ne. congruence.
      - exists cl. rewrite (resendRange_cons_absent _ _ _ _ _ _ Hk).
        split; [reflexivity |]. split; [reflexivity |]. split; [exact Hw |].
        split; [rewrite Hk; reflexivity | reflexivity]. }
    destruct Hstep as (cl1 & -> & Hst1 & Hstop1 & Hk1 & Hother1).
    destruct (IH cl1 Hnodup) as (cl' & Hpass & Hst & Hstop & Hlook).
    + rewrite Hst1. exact Hd.
    + exact Hstop1.
    + intros key tk Hin Hkey.
      assert (Hne : key <> k) by (intros ->; contradiction).
      rewrite Hother1 in Hkey by exact Hne.
      apply (Hall key tk); [right; exact Hin | exact Hkey].
    + exists cl'. split; [exact Hpass |].
      split; [rewrite Hst; exact Hst1 |]. split; [exact Hstop |].
      intros key. rewrite Hlook.
      destruct (decide (key = k)) as [-> | Hne].
      * destruct (decide (k ∈ rest)) as [Hin | _]; [contradiction |].
        destruct (decide (k ∈ k :: rest)) as [_ | Hnot]; [exact Hk1 |].
        exfalso. apply Hnot. left.
      * rewrite Hother1 by exact Hne.
        destruct (decide (key ∈ rest)) as [Hin | Hnot];
          destruct (decide (key ∈ k :: rest)) as [Hin' | Hnot']; try reflexivity.
        -- exfalso. apply Hnot'. right. exact Hin.
        -- apply elem_of_cons in Hin' as [-> | Hin']; contradiction.
Qed.

(** X21. On a session that is not done and whose writer has not been
    stopped, a resend pass over records that can be written and are keyed
    on their packet ids returns no error and has treated every record of
    the table: a record that had used up its resends is gone, a record
    whose backoff still runs (in a pass that is not forced) is as it was,
    and every other record has been resent. *)
Theorem ResendInflight_completes (order : list Z) (force : bool) (now : Z)
    (cl : Client) :
  keyedOnPacketID (InFlight cl) ->
  rangeOrder order (InFlight cl) ->
  force = true \/ countsFromZero (InFlight cl) ->
  done (state cl) <> 1 -> circ.stopped (w cl) = false ->
  (∀ key tk, InFlight cl !! key = Some tk -> writable (now / Second) tk) ->
  ∃ cl',
    ResendInflight order force now cl = Returns None cl'
    /\ ∀ key, InFlight cl' !! key
              = InFlight cl !! key ≫= afterTurn force (now / Second).
Proof.
  intros Hkeyed [Hnodup Horder] Hsafe Hd Hw Hwr.
  unfold ResendInflight, InFlight_Len.
  destruct (Z.eqb_spec (Z.of_nat (size (InFlight cl))) 0) as [Hsize | _].
  - assert (Hempty : InFlight cl = ∅) by (apply map_size_empty_iff; lia).
    exists cl. split; [reflexivity |].
    intros key. rewrite Hempty, lookup_empty. reflexivity.
  - destruct (resendRange_completes order force now (now / Second) cl Hnodup Hd Hw)
      as (cl' & Hpass & _ & _ & Hlook).
    + intros key tk _ Hk. split; [exact (Hkeyed key tk Hk) |].
      split; [| exact (Hwr key tk Hk)].
      destruct Hsafe as [Hf | Hc]; [left; exact Hf | right; exact (Hc key tk Hk)].
    + exists cl'. split; [exact Hpass |].
      intros key. rewrite Hlook.
      destruct (decide (key ∈ order)) as [_ | Hnot]; [reflexivity |].
      destruct (InFlight cl !! key) as [tk |] eqn:Hk; [| reflexivity].
      exfalso. apply Hnot, Horder. eauto.
Qed.

End ResendCompletes.

(** ** The read loop *)

Section ReadLoopProperties.

Context {codec : Codec}.

Lemma ReadPacket_no_growth (fh : FixedHeader) (cl : Client) :
  (length (circ.unread (r (snd (ReadPacket fh cl))))
   <= length (circ.unread (r cl)))%nat.
Proof.
  unfold ReadPacket. cbn [PFixedHeader setFixedHeader].
  destruct (Remaining fh =? 0); [reflexivity |].
  destruct (circ.Read (Remaining fh) (r cl)) as [p [e |]]; [reflexivity |].
  destruct (kindOf (Type_ fh)) as [[] |];
    try destruct (DecodeBody _ _ _) as [pk err];
    cbn; rewrite length_drop; lia.
Qed.

(** A turn of the loop ends it with an error, never with nil and never
    with a panic, or goes on with at least two bytes fewer to read when
    the handler adds none. *)
Lemma readTurn_cases (now : Z) (h : Handler) (cl : Client) :
  (∀ c pk, (length (circ.unread (r (fst (h c pk))))
            <= length (circ.unread (r c)))%nat) ->
  match readTurn now h cl with
  | inl Panics => False
  | inl (Returns None _) => False
  | inl (Returns (Some _) _) => True
  | inr cl1 =>
      (length (circ.unread (r cl1)) + 2 <= length (circ.unread (r cl)))%nat
  end.
Proof.
  intros Hh. unfold readTurn.
  set (cl0 := refreshDeadline now (keepalive cl) cl).
  assert (Hr0 : r cl0 = r cl).
  { subst cl0. unfold refreshDeadline. destruct (conn cl); reflexivity. }
  pose proof (ReadFixedHeader_cases zeroFixedHeader cl0) as Hfh.
  destruct (ReadFixedHeader zeroFixedHeader cl0) as [[fh [e |]] cl1 |];
    [exact I | | exact Hfh].
  destruct Hfh as (b0 & conts & last & rest & Hu & _ & _ & _ & _ & Hrest & _).
  pose proof (ReadPacket_no_growth fh cl1) as Hpk.
  destruct (ReadPacket fh cl1) as [[pk [e |]] cl2]; [exact I |].
  pose proof (Hh cl2 pk) as Hgrow.
  destruct (h cl2 pk) as [cl3 [e |]]; [exact I |].
  cbn [fst snd] in *. rewrite Hr0 in Hu. rewrite Hu.
  rewrite Hrest in Hpk. cbn [length]. rewrite length_app. cbn [length]. lia.
Qed.

(** X22. [Read] returns nil only from the exit test: at once, with the
    session untouched and the handler not called, when the session is
    done and the reader is drained; and whenever it returns nil, the
    session it leaves is done and its reader drained. Every other return
    carries an error. *)
Theorem Read_returns_nil (turns : nat) (clock : nat -> Z) (k : nat)
    (h : Handler) (cl cl' : Client) :
  (done (state cl) = 1 -> circ.unread (r cl) = [] ->
   Read (S turns) clock k h cl = Some (Returns None cl))
  /\ (Read turns clock k h cl = Some (Returns None cl') ->
      done (state cl') = 1 /\ circ.unread (r cl') = []).
Proof.
  split.
  - intros Hd Hu. cbn [Read]. unfold circ.CapDelta. rewrite Hd, Hu. reflexivity.
  - revert k cl. induction turns as [| turns IH]; intros k cl Hread; [discriminate |].
    cbn [Read] in Hread.
    destruct (Z.eqb_spec (done (state cl)) 1) as [Hd | _]; cbn [andb] in Hread.
    + destruct (Z.eqb_spec (circ.CapDelta (r cl)) 0) as [Hc | _].
      * injection Hread as <-. split; [exact Hd |].
        unfold circ.CapDelta in Hc. apply length_zero_iff_nil. lia.
      * unfold readTurn in Hread.
        destruct (ReadFixedHeader _ _) as [[fh [e |]] cl1 |]; try discriminate.
        destruct (ReadPacket fh cl1) as [[pk [e |]] cl2]; try discriminate.
        destruct (h cl2 pk) as [cl3 [e |]]; try discriminate.
        exact (IH _ _ Hread).
    + unfold readTurn in Hread.
      destruct (ReadFixedHeader _ _) as [[fh [e |]] cl1 |]; try discriminate.
      destruct (ReadPacket fh cl1) as [[pk [e |]] cl2]; try discriminate.
      destruct (h cl2 pk) as [cl3 [e |]]; try discriminate.
      exact (IH _ _ Hread).
Qed.

Lemma Read_ends_within (n : nat) (clock : nat -> Z) (k : nat) (h : Handler)
    (cl : Client) :
  (∀ c pk, (length (circ.unread (r (fst (h c pk))))
            <= length (circ.unread (r c)))%nat) ->
  (length (circ.unread (r cl)) < 2 * n)%nat ->
  ∃ e cl', Read n clock k h cl = Some (Returns e cl').
Proof.
  intros Hh. revert k cl. induction n as [| n IH]; intros k cl Hlen; [lia |].
  cbn [Read].
  destruct ((done (state cl) =? 1) && (circ.CapDelta (r cl) =? 0)); [eauto |].
  pose proof (readTurn_cases (clock k) h cl Hh) as Hturn.
  destruct (readTurn (clock k) h cl) as [[[e |] cl1 |] | cl1];
    try contradiction; [eauto |].
  apply IH. lia.
Qed.

(** X23. If the handler adds no bytes to the reader, [Read] comes to an
    end on the bytes the connection delivers: every turn that goes on
    has consumed at least the two bytes of a fixed header, so the loop
    returns within half as many turns as there are unread bytes, plus
    one; it never indexes out of range on the way. *)
Theorem Read_ends (clock : nat -> Z) (k : nat) (h : Handler) (cl : Client) :
  (∀ c pk, (length (circ.unread (r (fst (h c pk))))
            <= length (circ.unread (r c)))%nat) ->
  ∃ e cl',
    Read (S (length (circ.unread (r cl)) / 2)) clock k h cl
    = Some (Returns e cl').
Proof.
  intros Hh. apply Read_ends_within; [exact Hh |].
  pose proof (Nat.div_mod_eq (length (circ.unread (r cl))) 2) as Hdiv.
  pose proof (Nat.mod_upper_bound (length (circ.unread (r cl))) 2 ltac:(lia)).
  lia.
Qed.

End ReadLoopProperties.

(** ** The stop protocol, further *)

Section StopFurther.

Import StopProtocol.

(** X24. The body of [Stop] is never run by two tasks at a time: in every
    reachable state at most one task stands between the lock and the
    unlock of the once-gate, and it is the holder of the gate's mutex. *)
Theorem Stop_mutual_exclusion (n : nat) (nw nr : Z) (x : World)
    (i j : nat) (p q : pc) :
  reachable n nw nr x ->
  tasks x !! i = Some p -> inGate p = true ->
  tasks x !! j = Some q -> inGate q = true ->
  i = j /\ holder x = Some i.
Proof.
  intros Hreach Hi Hp Hj Hq.
  pose proof (Inv_reachable n nw nr x Hreach) as HI.
  pose proof (inv_gate x HI i p Hi Hp) as Hholder.
  pose proof (inv_gate x HI j q Hj Hq) as Hholder'.
  split; [congruence | exact Hholder].
Qed.

(** X25. A call of [Stop] returns only when the shutdown is complete: in
    every reachable state in which some call has returned, be it the one
    that ran the body or one that found the gate taken, the done flag is
    1 and the body has run in full. *)
Theorem Stop_returned_done (n : nat) (nw nr : Z) (x : World) (j : nat) :
  reachable n nw nr x ->
  tasks x !! j = Some Returned ->
  done (st x) = 1 /\ did x = bodyInFull /\ entered x = 1%nat.
Proof.
  intros Hreach Hj.
  pose proof (Inv_reachable n nw nr x Hreach) as HI.
  pose proof (inv_returned x HI j Hj) as Honce.
  pose proof (inv_progress x HI) as Hp. rewrite Honce in Hp.
  destruct (holderAt x) as [[] |]; cbn in Hp; try discriminate;
    injection Hp as <- <- <-; repeat split.
Qed.

(** X26. The protocol does not deadlock: in every reachable state in which
    both wait groups are at zero and some call has not returned, some
    task can take its next action. *)
Theorem Stop_progress (n : nat) (nw nr : Z) (x : World) (j : nat) (p : pc) :
  reachable n nw nr x ->
  endedW (st x) = 0 -> endedR (st x) = 0 ->
  tasks x !! j = Some p -> p <> Returned ->
  ∃ i y, taskStep i x = Some y.
Proof.
  intros Hreach Hw Hr Hj Hp.
  pose proof (Inv_reachable n nw nr x Hreach) as HI.
  destruct (holder x) as [i |] eqn:Hholder.
  - destruct (inv_holder x HI i Hholder) as [q [Hq Hin]].
    exists i. unfold taskStep. rewrite Hq, Hw, Hr.
    destruct q; try discriminate; cbn; try (destruct (endOnce (st x))); eauto.
  - exists j. unfold taskStep. rewrite Hj, Hholder.
    destruct p; try contradiction;
      try (pose proof (inv_gate x HI j _ Hj eq_refl); congruence);
      try (destruct (endOnce (st x))); eauto.
Qed.

End StopFurther.

(** ** The start protocol *)

Section StartProperties.

Import StartProtocol.

Lemma Start_Inv_initial : Inv initial.
Proof. unfold Inv. cbn. repeat split; (discriminate || lia || auto). Qed.

Lemma Start_Inv_step (x y : World) : Inv x -> step x y -> Inv y.
Proof.
  intros HI [a Hact]. unfold act in Hact.
  destruct x as [m wt rt s ew er p]. cbn in Hact.
  destruct p; [discriminate |].
  unfold Inv in *. cbn in HI.
  destruct HI as (Hl & Hs & Hw & Hr & Hret & _).
  destruct a; unfold mainStep, writerStep, readerStep in Hact; cbn in Hact;
    destruct m, wt as [[] |], rt as [[] |]; cbn in Hl;
    destruct Hl as [Hlw Hlr]; try congruence; cbn in Hact;
    try discriminate;
    try (destruct (Z.eqb_spec s 0); [| discriminate]);
    injection Hact as <-; cbn in *;
    try (assert (s = 0) as Hs0 by (apply Hret; reflexivity));
    (split; [split; (reflexivity || discriminate) |]);
    (split; [lia |]); (split; [lia |]); (split; [lia |]);
    (split; [intros; (discriminate || lia) |]);
    intros Hp;
    try discriminate Hp;
    try (apply Z.ltb_lt in Hp);
    first [ lia
          | left; split; [reflexivity | lia]
          | right; split; [reflexivity | lia] ].
Qed.

Lemma Start_Inv_reachable (x : World) : reachable x -> Inv x.
Proof.
  unfold reachable. revert x.
  apply (rtc_ind_r (fun x => Inv x)); [apply Start_Inv_initial |].
  intros y z _ Hstep IH. exact (Start_Inv_step y z IH Hstep).
Qed.

Lemma Start_run_sound (sched : list Actor) (x y : World) :
  run sched x = Some y -> rtc step x y.
Proof.
  revert x. induction sched as [| a sched IH]; intros x H; cbn in H.
  - injection H as <-. apply rtc_refl.
  - destruct (act a x) as [x1 |] eqn:Hact; [| discriminate].
    eapply rtc_l; [exists a; exact Hact | apply IH; exact H].
Qed.

(** X27. [Start] returns only when both drainer tasks have signalled
    that they run: at its return the [started] group is back at zero,
    both [go] statements have been executed and each task is past its
    [started.Done()]. No interleaving lets the [started] group go below
    zero. *)
Theorem Start_returns_registered (x : World) :
  reachable x ->
  mainAt x = StartReturned ->
  nStarted x = 0
  /\ (∃ tw, writerAt x = Some tw /\ tw <> StartedDone)
  /\ (∃ tr, readerAt x = Some tr /\ tr <> StartedDone).
Proof.
  intros Hreach Hm. apply Start_Inv_reachable in Hreach.
  destruct Hreach as (Hl & Hs & _ & _ & Hret & _).
  specialize (Hret Hm). rewrite Hm in Hl, Hs. cbn in Hl, Hs.
  destruct Hl as [Hw Hr]. split; [exact Hret |].
  destruct (writerAt x) as [tw |]; [| congruence].
  destruct (readerAt x) as [tr |]; [| congruence].
  split; [exists tw | exists tr]; (split; [reflexivity |]); intros ->.
  - cbn in Hs. destruct tr; cbn in Hs; lia.
  - cbn in Hs. destruct tw; cbn in Hs; lia.
Qed.

(** X28. A wait group of the start protocol panics only in one way: a
    drainer has ended and signalled its [ended] group while the caller of
    [Start] still stands before the [Add(1)] for that group, which the
    source places after the [go] statement; the group is then at -1. Once
    [Start] is past both [Add(1)] calls, and so once it has returned, no
    wait group panics. *)
Theorem Start_panic_window (x : World) :
  reachable x ->
  panicked x = true ->
  (mainAt x = AddEndedW /\ nEndedW x = -1)
  \/ (mainAt x = AddEndedR /\ nEndedR x = -1).
Proof.
  intros Hreach Hp. apply Start_Inv_reachable in Hreach.
  destruct Hreach as (_ & _ & _ & _ & _ & Hpanic). exact (Hpanic Hp).
Qed.

(** X29. Nothing in [Start] orders [endedW.Add(1)] before the drainer's
    [endedW.Done()]: in the interleaving where the writer's drainer
    registers, its [WriteTo] returns at once and it signals [endedW]
    before the caller of [Start] has executed [endedW.Add(1)], the
    [endedW] group goes to -1 and panics. *)
Theorem Start_early_end_panics :
  ∃ x, run earlyWriter initial = Some x
       /\ reachable x /\ panicked x = true /\ nEndedW x = -1
       /\ mainAt x = AddEndedW.
Proof.
  eexists. split; [reflexivity |].
  split; [apply (Start_run_sound earlyWriter); reflexivity |].
  repeat split.
Qed.

End StartProperties.

(** * The further properties at work *)

(** X8 at the counter 65535: the next id is 1. *)
Lemma NextPacketID_in_range_witness :
  0 <= packetID (setPacketID 65535 (sessionOn [])) <= 65535
  /\ NextPacketID (setPacketID 65535 (sessionOn []))
     = (1, setPacketID 1 (sessionOn [])).
Proof.
  split; [cbn; lia |].
  pose proof (NextPacketID_in_range (setPacketID 65535 (sessionOn []))
                ltac:(cbn; lia)) as H.
  destruct (NextPacketID (setPacketID 65535 (sessionOn []))) as [i cl'].
  destruct H as (_ & -> & _ & ->). reflexivity.
Defined.

(** X9 at the first two calls from the counter 0. *)
Lemma NextPacketID_window_witness :
  0 <= packetID (sessionOn []) <= 65535
  /\ (0 < 1 < 2)%nat
  /\ fst (NextPacketIDs 2 (sessionOn [])) !! 0%nat
     <> fst (NextPacketIDs 2 (sessionOn [])) !! 1%nat.
Proof.
  split; [cbn; lia |]. split; [lia |].
  apply (NextPacketID_window 2 0 1 (sessionOn [])); [cbn; lia | lia | lia].
Defined.

(** X10 at a keepalive of 60 seconds: the expiry is 90 seconds away. *)
Lemma refreshDeadline_keepalive_witness :
  0 <= 60 <= 43690
  /\ conn (refreshDeadline 1000 60 connected)
     = Some {| deadline := Some (1000 + 90 * Second) |}.
Proof.
  split; [lia |].
  rewrite (refreshDeadline_keepalive 1000 60 connected ltac:(lia)).
  reflexivity.
Defined.

(** X11 at the CONNECT packet with keepalive 60. *)
Lemma Identify_deadline_witness :
  conn connected = Some {| deadline := None |}
  /\ 0 <= connect.Keepalive anonymousConnect <= 43690
  /\ conn (Identify "tcp1" anonymousConnect "c9lgs2" 1000 connected)
     = Some {| deadline := Some (1000 + 90 * Second) |}.
Proof.
  split; [reflexivity |]. split; [cbn; lia |].
  rewrite (Identify_deadline "tcp1" anonymousConnect "c9lgs2" 1000
             {| deadline := None |} connected eq_refl ltac:(cbn; lia)).
  reflexivity.
Defined.

Lemma longFrame_field : lengthField [Byte.xc1] Byte.x02.
Proof.
  split; [repeat constructor; vm_compute; discriminate | reflexivity].
Qed.

(** X14 at the field [C1 02]: the remainder is 65 + 2 * 128 = 321 bytes
    long. *)
Lemma ReadFixedHeader_field_witness :
  lengthField [Byte.xc1] Byte.x02
  /\ ∃ cl',
       ReadFixedHeader (codec := plainCodec) zeroFixedHeader (sessionOn longFrame)
       = Returns ({| Type_ := 3; Dup := false; Qos := 0; Retain := false;
                     Remaining := 321 |}, None) cl'
       /\ circ.unread (r cl') = (Byte.x07 :: replicate 320 Byte.x00) ++ [Byte.xc0]
       /\ trace cl' = [ReaderCommitTail 3].
Proof.
  split; [exact longFrame_field |].
  exact (ReadFixedHeader_field (codec := plainCodec) zeroFixedHeader
           {| Type_ := 3; Dup := false; Qos := 0; Retain := false;
              Remaining := 0 |}
           (sessionOn longFrame) Byte.x30 Byte.x02 [Byte.xc1]
           ((Byte.x07 :: replicate 320 Byte.x00) ++ [Byte.xc0])
           eq_refl eq_refl longFrame_field (le_S _ _ (le_n 1))).
Defined.

(** X15 on a reader that holds one byte where two are announced. *)
Lemma ReadPacket_short_witness :
  Z.of_nat (length (circ.unread (r (sessionOn [Byte.x07])))) < 2
  /\ ReadPacket (codec := plainCodec)
       {| Type_ := 3; Dup := false; Qos := 0; Retain := false; Remaining := 2 |}
       (sessionOn [Byte.x07])
     = ((setFixedHeader
           {| Type_ := 3; Dup := false; Qos := 0; Retain := false;
              Remaining := 2 |} zeroPacket, Some ErrChannel),
        sessionOn [Byte.x07]).
Proof.
  split; [cbn; lia |].
  apply (ReadPacket_short (codec := plainCodec)). cbn. lia.
Defined.

(** X16 on a PINGREQ that announces one byte of remainder: the byte is
    skipped and no error is returned. *)
Lemma ReadPacket_commits_witness :
  0 < 1 <= Z.of_nat (length (circ.unread (r (sessionOn [Byte.x07; Byte.xc0]))))
  /\ fst (ReadPacket (codec := plainCodec)
            {| Type_ := 12; Dup := false; Qos := 0; Retain := false;
               Remaining := 1 |}
            (sessionOn [Byte.x07; Byte.xc0]))
     = (setFixedHeader
          {| Type_ := 12; Dup := false; Qos := 0; Retain := false;
             Remaining := 1 |} zeroPacket, None)
  /\ circ.unread
       (r (snd (ReadPacket (codec := plainCodec)
                  {| Type_ := 12; Dup := false; Qos := 0; Retain := false;
                     Remaining := 1 |}
                  (sessionOn [Byte.x07; Byte.xc0]))))
     = [Byte.xc0].
Proof.
  split; [cbn; lia |].
  pose proof (ReadPacket_commits (codec := plainCodec)
                {| Type_ := 12; Dup := false; Qos := 0; Retain := false;
                   Remaining := 1 |}
                (sessionOn [Byte.x07; Byte.xc0]) ltac:(cbn; lia)) as H.
  cbv zeta in H.
  destruct (ReadPacket _ _) as [[pk err] cl'].
  destruct H as [Hu [-> ->]]. split; [reflexivity |].
  cbn [snd]. rewrite Hu. reflexivity.
Defined.

(** X17 on the long frame: the reader is left at the control byte of the
    PINGREQ behind it. *)
Lemma frame_consumed_witness :
  Z.of_nat (length (Byte.x07 :: replicate 320 Byte.x00))
  = varintValue ([Byte.xc1] ++ [Byte.x02])
  /\ ∃ cl1,
       ReadFixedHeader (codec := plainCodec) zeroFixedHeader (sessionOn longFrame)
       = Returns
           (setRemaining (Z.of_nat (length (Byte.x07 :: replicate 320 Byte.x00)))
              {| Type_ := 3; Dup := false; Qos := 0; Retain := false;
                 Remaining := 0 |}, None) cl1
       /\ circ.unread
            (r (snd (ReadPacket (codec := plainCodec)
                       (setRemaining
                          (Z.of_nat (length (Byte.x07 :: replicate 320 Byte.x00)))
                          {| Type_ := 3; Dup := false; Qos := 0; Retain := false;
                             Remaining := 0 |}) cl1)))
          = [Byte.xc0].
Proof.
  split; [reflexivity |].
  exact (frame_consumed (codec := plainCodec) zeroFixedHeader
           {| Type_ := 3; Dup := false; Qos := 0; Retain := false;
              Remaining := 0 |}
           (sessionOn longFrame) Byte.x30 Byte.x02 [Byte.xc1]
           (Byte.x07 :: replicate 320 Byte.x00) [Byte.xc0]
           eq_refl eq_refl longFrame_field (le_S _ _ (le_n 1)) eq_refl
           (fun k pk px => eq_refl)).
Defined.

(** X18 on the running session: the three bytes of a body are pushed. *)
Lemma WritePacket_pushes_witness :
  done (state runningSession) <> 1
  /\ circ.stopped (w runningSession) = false
  /\ WritePacket (codec := plainCodec) 0
       {| PFixedHeader := {| Type_ := Publish; Dup := false; Qos := 0;
                             Retain := false; Remaining := 0 |};
          PacketID := 0; Body := [Byte.x61; Byte.x2f; Byte.x62] |}
       runningSession
     = ((3, None),
        emit WriterUnlock
          (emit (WriterWrite [Byte.x61; Byte.x2f; Byte.x62])
             (setWriter
                {| circ.wID := EmptyString;
                   circ.pushed := [Byte.x61; Byte.x2f; Byte.x62];
                   circ.stopped := false |}
                (emit (CodecEncode Publish) (emit WriterLock runningSession))))).
Proof.
  split; [discriminate |]. split; [reflexivity |].
  pose proof (WritePacket_pushes (codec := plainCodec) 0
                {| PFixedHeader := {| Type_ := Publish; Dup := false; Qos := 0;
                                      Retain := false; Remaining := 0 |};
                   PacketID := 0; Body := [Byte.x61; Byte.x2f; Byte.x62] |}
                runningSession KPublish [Byte.x61; Byte.x2f; Byte.x62]
                ltac:(discriminate) eq_refl eq_refl eq_refl) as H.
  destruct H as (_ & _ & _). reflexivity.
Defined.

(** X21 on the running session at second 100, not forced: packet 1 is
    resent and packet 2 dropped. *)
Lemma ResendInflight_completes_witness :
  done (state runningSession) <> 1
  /\ circ.stopped (w runningSession) = false
  /\ ∃ cl',
       ResendInflight (codec := plainCodec) [1; 2] false (100 * Second)
         runningSession = Returns None cl'
       /\ ∀ key, InFlight cl' !! key
                 = InFlight runningSession !! key
                   ≫= afterTurn false (100 * Second / Second).
Proof.
  split; [discriminate |]. split; [reflexivity |].
  apply (ResendInflight_completes (codec := plainCodec) [1; 2] false
           (100 * Second) runningSession twoInFlight_keyed twoInFlight_order
           (or_intror twoInFlight_counts)); [discriminate | reflexivity |].
  intros key tk Hk. exists KPublish.
  unfold runningSession in Hk. cbn in Hk. unfold twoInFlight in Hk.
  rewrite !lookup_insert_Some, lookup_empty in Hk.
  destruct Hk as [[_ <-] | [_ [[_ <-] | [_ Hk]]]];
    [split; reflexivity | split; reflexivity | discriminate].
Defined.

(** X23 on the long frame and the idle handler: both packets are read and
    the loop ends with the reader's error. *)
Lemma Read_ends_witness :
  (∀ c pk, (length (circ.unread (r (fst (idleHandler c pk))))
            <= length (circ.unread (r c)))%nat)
  /\ ∃ e cl',
       Read (codec := plainCodec)
         (S (length (circ.unread (r (sessionOn longFrame))) / 2))
         (fun _ => 0) 0 idleHandler (sessionOn longFrame)
       = Some (Returns e cl').
Proof.
  assert (Hidle : ∀ c pk, (length (circ.unread (r (fst (idleHandler c pk))))
                           <= length (circ.unread (r c)))%nat)
    by (intros c pk; reflexivity).
  split; [exact Hidle |].
  apply (Read_ends (codec := plainCodec) (fun _ => 0) 0 idleHandler
           (sessionOn longFrame) Hidle).
Defined.

Lemma oneInGate_reachable : StopProtocol.reachable 2 0 0 oneInGate.
Proof.
  apply (run_sound
           [StopProtocol.Task 0; StopProtocol.Task 0; StopProtocol.Task 0;
            StopProtocol.Task 0; StopProtocol.Task 0; StopProtocol.Task 1]).
  reflexivity.
Qed.

Lemma bothReturned_reachable :
  StopProtocol.reachable 2 1 1 StopProtocol.bothReturned.
Proof. apply (run_sound (StopProtocol.inTurn 2)). reflexivity. Qed.

(** X24 on the two tasks of which the first is in the body. *)
Lemma Stop_mutual_exclusion_witness :
  StopProtocol.reachable 2 0 0 oneInGate
  /\ StopProtocol.tasks oneInGate !! 0%nat = Some StopProtocol.AtWaitW
  /\ StopProtocol.inGate StopProtocol.AtWaitW = true
  /\ 0%nat = 0%nat /\ StopProtocol.holder oneInGate = Some 0%nat.
Proof.
  split; [exact oneInGate_reachable |]. split; [reflexivity |].
  split; [reflexivity |].
  exact (Stop_mutual_exclusion 2 0 0 oneInGate 0 0 StopProtocol.AtWaitW
           StopProtocol.AtWaitW oneInGate_reachable eq_refl eq_refl eq_refl
           eq_refl).
Defined.

(** X25 on the two tasks that have both returned: the second, which did
    not run the body, finds the session done all the same. *)
Lemma Stop_returned_done_witness :
  StopProtocol.reachable 2 1 1 StopProtocol.bothReturned
  /\ StopProtocol.tasks StopProtocol.bothReturned !! 1%nat
     = Some StopProtocol.Returned
  /\ done (StopProtocol.st StopProtocol.bothReturned) = 1
  /\ StopProtocol.did StopProtocol.bothReturned = StopProtocol.bodyInFull
  /\ StopProtocol.entered StopProtocol.bothReturned = 1%nat.
Proof.
  split; [exact bothReturned_reachable |]. split; [reflexivity |].
  exact (Stop_returned_done 2 1 1 StopProtocol.bothReturned 1
           bothReturned_reachable eq_refl).
Defined.

(** X26 on the two tasks of which the second waits for the mutex: the
    first can go on. *)
Lemma Stop_progress_witness :
  StopProtocol.reachable 2 0 0 oneInGate
  /\ endedW (StopProtocol.st oneInGate) = 0
  /\ endedR (StopProtocol.st oneInGate) = 0
  /\ StopProtocol.tasks oneInGate !! 1%nat = Some StopProtocol.AtLock
  /\ ∃ i y, StopProtocol.taskStep i oneInGate = Some y.
Proof.
  split; [exact oneInGate_reachable |]. split; [reflexivity |].
  split; [reflexivity |]. split; [reflexivity |].
  exact (Stop_progress 2 0 0 oneInGate 1 StopProtocol.AtLock
           oneInGate_reachable eq_refl eq_refl eq_refl ltac:(discriminate)).
Defined.

Lemma bothRunning_reachable : StartProtocol.reachable StartProtocol.bothRunning.
Proof.
  apply (Start_run_sound StartProtocol.bothLaunched). reflexivity.
Qed.

Lemma writerEndedEarly_reachable :
  StartProtocol.reachable StartProtocol.writerEndedEarly.
Proof.
  apply (Start_run_sound StartProtocol.earlyWriter). reflexivity.
Qed.

(** [Start] has returned with both drainers inside [WriteTo] and
    [ReadFrom]. *)
Lemma Start_returns_registered_witness :
  StartProtocol.nStarted StartProtocol.bothRunning = 0
  /\ (∃ tw, StartProtocol.writerAt StartProtocol.bothRunning = Some tw
            /\ tw <> StartProtocol.StartedDone)
  /\ (∃ tr, StartProtocol.readerAt StartProtocol.bothRunning = Some tr
            /\ tr <> StartProtocol.StartedDone).
Proof.
  apply (Start_returns_registered StartProtocol.bothRunning).
  - exact bothRunning_reachable.
  - reflexivity.
Defined.

(** The writer's drainer has ended before [endedW.Add(1)]. *)
Lemma Start_panic_window_witness :
  (StartProtocol.mainAt StartProtocol.writerEndedEarly = StartProtocol.AddEndedW
   /\ StartProtocol.nEndedW StartProtocol.writerEndedEarly = -1)
  \/ (StartProtocol.mainAt StartProtocol.writerEndedEarly = StartProtocol.AddEndedR
      /\ StartProtocol.nEndedR StartProtocol.writerEndedEarly = -1).
Proof.
  apply (Start_panic_window StartProtocol.writerEndedEarly).
  - exact writerEndedEarly_reachable.
  - reflexivity.
Defined.
